(** * Cheat search of DolphinQt's CheatsManager

    A shallow embedding of the memory-value search in
    [Source/Core/DolphinQt/CheatsManager.cpp]: the candidate list
    [m_results], the initial scan ([OnNewSearchClicked]), the refine
    pass ([NextSearch], [FilterCheatSearchResults]), the byte swap of
    the search value ([SwapValue]), the table refresh ([Update],
    [TimedUpdate]) and [Reset].

    Conventions.
    - [u8], [u16], [u32] values are integers in [Z]; wrap-around is
      written out with [wrap32].
    - The host is little-endian: the object representation of a [u32]
      lists its least significant byte first ([bytes_of_u32]).  The
      emulated memory is big-endian, which is why the source swaps the
      search value before handing it to [memcmp].
    - Calls into the emulator ([PowerPC::HostRead_U8], ...) are recorded
      in a trace, so that one can say which reads an operation performs. *)

From Stdlib Require Import ZArith String Ascii DecimalString HexadecimalString.
From Stdlib.Strings Require Import Byte.
From stdpp Require Import base list list_numbers sorting gmap strings.
From Stdlib Require Import HexadecimalN.

Local Open Scope Z_scope.

(** ** Bytes and 32-bit words *)

Definition u8 (b : byte) : Z := Z.of_N (Byte.to_N b).

Definition byte_of (z : Z) : byte :=
  default x00 (Byte.of_N (Z.to_N (z mod 256))).

Definition wrap32 (z : Z) : Z := z mod 2 ^ 32.

(** Object representation of a [u32] on the (little-endian) host: the
    bytes one sees through [(u8* )&v]. *)
Definition bytes_of_u32 (v : Z) : list byte :=
  (λ i, byte_of (Z.shiftr v (8 * i))) <$> [0; 1; 2; 3].

Definition u32_of_bytes (bs : list byte) : Z :=
  foldr (λ b acc, u8 b + 256 * acc) 0 bs.

(** The emulated memory behind [m_ram.ptr]: a byte for every offset. *)
Definition Memory : Type := Z → byte.

(** [&mem[addr]] read for [n] bytes. *)
Definition load (mem : Memory) (addr : Z) (n : Z) : list byte :=
  (λ i, mem (addr + i)) <$> seqZ 0 n.

(** [std::memcmp] on two byte ranges of the same length.  Only the sign
    of the result is specified; the difference of the first differing
    bytes is what the usual implementations return. *)
Fixpoint memcmp (s1 s2 : list byte) : Z :=
  match s1, s2 with
  | b1 :: t1, b2 :: t2 =>
      if u8 b1 =? u8 b2 then memcmp t1 t2 else u8 b1 - u8 b2
  | _, _ => 0
  end.

(** [std::memcpy(&dst, src, n)] where [dst] is a [u32] and [src] has
    [n] bytes: the first [n] bytes of [dst] are replaced, the others
    stay. *)
Definition memcpy_u32 (dst : Z) (src : list byte) : Z :=
  u32_of_bytes (take 4 (src ++ drop (length src) (bytes_of_u32 dst))).

(** Big-endian reading of a byte string, the numeric value the emulated
    machine sees in it. *)
Definition be_decode (bs : list byte) : Z :=
  foldl (λ acc b, 256 * acc + u8 b) 0 bs.

(** Modelled from the spec: [Common::swap16] and [Common::swap32]
    (Common/Swap.h) are not part of the sources at hand; the spec asks
    for "explicit byte-order conversion functions operating on
    fixed-width integers", that is, the bytes of the value in reverse
    order. *)
Definition bytes_of_u16 (v : Z) : list byte :=
  (λ i, byte_of (Z.shiftr v (8 * i))) <$> [0; 1].

Definition swap16 (v : Z) : Z := u32_of_bytes (reverse (bytes_of_u16 v)).

Definition swap32 (v : Z) : Z := u32_of_bytes (reverse (bytes_of_u32 v)).

(** ** Qt strings *)

(** [QString::number(n)] for an unsigned integer. *)
Definition number (n : Z) : string :=
  DecimalString.NilZero.string_of_uint (N.to_uint (Z.to_N n)).

Fixpoint pad (k : nat) (fill : ascii) (s : string) : string :=
  match k with
  | O => s
  | S k' => String fill (pad k' fill s)
  end.

(** [QStringLiteral("%1").arg(v, fieldWidth, 16, fillChar)]: lower-case
    hexadecimal, right-aligned in [fieldWidth] columns. *)
Definition arg16 (v : Z) (fieldWidth : nat) (fillChar : ascii) : string :=
  let digits := HexadecimalString.NilZero.string_of_uint (N.to_hex_uint (Z.to_N v)) in
  pad (fieldWidth - String.length digits) fillChar digits.

Definition digit_of (c : ascii) : option Z :=
  let n := Z.of_N (N_of_ascii c) in
  if (48 <=? n) && (n <=? 57) then Some (n - 48)
  else if (97 <=? n) && (n <=? 102) then Some (n - 87)
  else if (65 <=? n) && (n <=? 70) then Some (n - 55)
  else None.

Fixpoint parse_digits (base : Z) (s : string) (acc : Z) : option Z :=
  match s with
  | EmptyString => Some acc
  | String c s' =>
      match digit_of c with
      | Some d => if d <? base then parse_digits base s' (base * acc + d) else None
      | None => None
      end
  end.

(** [QString::toUInt(&ok, base)] and [QString::toULong(&ok, base)] on
    the texts this dialog produces and accepts: a non-empty run of
    digits of the base that fits the type; anything else gives
    [(0, false)].  (Qt also skips surrounding blanks and, in base 16,
    a leading 0x; [limit] is [ULONG_MAX] of an LP64 host for
    [toULong].) *)
Definition to_unsigned (limit : Z) (s : string) (base : Z) : Z * bool :=
  match s with
  | EmptyString => (0, false)
  | _ =>
      match parse_digits base s 0 with
      | Some v => if v <=? limit then (v, true) else (0, false)
      | None => (0, false)
      end
  end.

Definition toUInt : string → Z → Z * bool := to_unsigned 0xFFFFFFFF.
Definition toULong : string → Z → Z * bool := to_unsigned 0xFFFFFFFFFFFFFFFF.

(** ** Data of the dialog *)

Definition MAX_RESULTS : Z := 4096.

(** The three memory regions a search can run on; [m_ram.ptr] points at
    the buffer of one of them. *)
Inductive RegionKind := MainRAM | WiiRAM | FakeVMEM.

(** Modelled from the spec: the declaration of [m_ram] (CheatsManager.h)
    is not part of the sources at hand; the spec's MemoryRegion is
    "pointer, size, base_address".  The pointer is kept as the region it
    points into ([None] is the null pointer), so that every operation
    sees the region's current bytes. *)
Record Ram := {
  ram_ptr : option RegionKind;
  ram_size : Z;
  ram_base : Z
}.

(** Modelled from the spec: the declaration of [Result]
    (CheatsManager.h) is not part of the sources at hand; the spec's
    Candidate is an offset with the last observed value, and the source
    uses exactly the members [address] and [old_value], the latter as
    the [u32] operand of [memcmp] and target of [memcpy]. *)
Record Result := {
  address : Z;
  old_value : Z
}.

Global Instance Result_inhabited : Inhabited Result :=
  populate {| address := 0; old_value := 0 |}.

(** A [QTableWidgetItem]: its text and its [INDEX_ROLE] data. *)
Record Item := {
  text : string;
  index_role : option Z
}.

(** The [QTableWidget]: four columns, [rowCount] rows, and the items
    that were set. *)
Record Table := {
  rowCount : Z;
  cells : gmap (Z * Z) Item
}.

Record State := {
  m_ram : Ram;
  m_results : list Result;
  m_search_type_size : Z;
  m_scan_is_initialized : bool;
  m_updating : bool;
  m_result_label : string;
  m_match_table : Table;
  m_timer_active : bool;
  m_refresh_enabled : bool;          (* m_refresh_enabled->isChecked() *)
  m_match_length : Z;                (* m_match_length->currentIndex() *)
  m_match_operation : Z;             (* m_match_operation->currentIndex() *)
  m_match_value : string;            (* m_match_value->text() *)
  m_match_decimal : bool;            (* m_match_decimal->isChecked() *)
  m_match_hexadecimal : bool;        (* m_match_hexadecimal->isChecked() *)
  m_ram_checked : RegionKind;        (* which of m_ram_main, m_ram_wii, m_ram_fakevmem is checked *)
  m_range_start : string;            (* m_range_start->text() *)
  m_range_end : string;              (* m_range_end->text() *)
  m_match_next_enabled : bool;
  m_setup_enabled : bool             (* region radios, range edits and m_match_new *)
}.

(** What the dialog consumes from the emulator and from Qt. *)
Record Host := {
  IsRunningAndStarted : bool;                 (* Core::IsRunningAndStarted() *)
  region_buffer : RegionKind → option Memory; (* Memory::m_pRAM, m_pEXRAM, m_pFakeVMEM *)
  region_size : RegionKind → Z;               (* GetRamSizeReal, GetExRamSizeReal, GetFakeVMemSize *)
  HostIsRAMAddress : Z → bool;
  HostRead_U8 : Z → Z;
  HostRead_U16 : Z → Z;
  HostRead_U32 : Z → Z;
  HostRead_F32 : Z → Z;                       (* the float, as its bit pattern *)
  number_float : Z → string;                  (* QString::number(float) *)
  toFloat : string → Z * bool                 (* QString::toFloat(&ok), as a bit pattern *)
}.

(** The bytes currently behind a pointer into a region.  Reading through
    a null or stale pointer is undefined in the source; the model reads
    zero bytes there. *)
Definition deref (host : Host) (p : option RegionKind) : Memory :=
  match p with
  | Some k => default (λ _, x00) (region_buffer host k)
  | None => λ _, x00
  end.

(** Assignments to the members an operation writes. *)

Definition set_m_ram (x : Ram) (st : State) : State :=
  {| m_ram := x; m_results := m_results st;
     m_search_type_size := m_search_type_size st;
     m_scan_is_initialized := m_scan_is_initialized st;
     m_updating := m_updating st; m_result_label := m_result_label st;
     m_match_table := m_match_table st; m_timer_active := m_timer_active st;
     m_refresh_enabled := m_refresh_enabled st;
     m_match_length := m_match_length st;
     m_match_operation := m_match_operation st;
     m_match_value := m_match_value st;
     m_match_decimal := m_match_decimal st;
     m_match_hexadecimal := m_match_hexadecimal st;
     m_ram_checked := m_ram_checked st; m_range_start := m_range_start st;
     m_range_end := m_range_end st;
     m_match_next_enabled := m_match_next_enabled st;
     m_setup_enabled := m_setup_enabled st |}.

Definition set_m_results (x : list Result) (st : State) : State :=
  {| m_ram := m_ram st; m_results := x;
     m_search_type_size := m_search_type_size st;
     m_scan_is_initialized := m_scan_is_initialized st;
     m_updating := m_updating st; m_result_label := m_result_label st;
     m_match_table := m_match_table st; m_timer_active := m_timer_active st;
     m_refresh_enabled := m_refresh_enabled st;
     m_match_length := m_match_length st;
     m_match_operation := m_match_operation st;
     m_match_value := m_match_value st;
     m_match_decimal := m_match_decimal st;
     m_match_hexadecimal := m_match_hexadecimal st;
     m_ram_checked := m_ram_checked st; m_range_start := m_range_start st;
     m_range_end := m_range_end st;
     m_match_next_enabled := m_match_next_enabled st;
     m_setup_enabled := m_setup_enabled st |}.

Definition set_m_search_type_size (x : Z) (st : State) : State :=
  {| m_ram := m_ram st; m_results := m_results st; m_search_type_size := x;
     m_scan_is_initialized := m_scan_is_initialized st;
     m_updating := m_updating st; m_result_label := m_result_label st;
     m_match_table := m_match_table st; m_timer_active := m_timer_active st;
     m_refresh_enabled := m_refresh_enabled st;
     m_match_length := m_match_length st;
     m_match_operation := m_match_operation st;
     m_match_value := m_match_value st;
     m_match_decimal := m_match_decimal st;
     m_match_hexadecimal := m_match_hexadecimal st;
     m_ram_checked := m_ram_checked st; m_range_start := m_range_start st;
     m_range_end := m_range_end st;
     m_match_next_enabled := m_match_next_enabled st;
     m_setup_enabled := m_setup_enabled st |}.

Definition set_m_scan_is_initialized (x : bool) (st : State) : State :=
  {| m_ram := m_ram st; m_results := m_results st;
     m_search_type_size := m_search_type_size st; m_scan_is_initialized := x;
     m_updating := m_updating st; m_result_label := m_result_label st;
     m_match_table := m_match_table st; m_timer_active := m_timer_active st;
     m_refresh_enabled := m_refresh_enabled st;
     m_match_length := m_match_length st;
     m_match_operation := m_match_operation st;
     m_match_value := m_match_value st;
     m_match_decimal := m_match_decimal st;
     m_match_hexadecimal := m_match_hexadecimal st;
     m_ram_checked := m_ram_checked st; m_range_start := m_range_start st;
     m_range_end := m_range_end st;
     m_match_next_enabled := m_match_next_enabled st;
     m_setup_enabled := m_setup_enabled st |}.

Definition set_m_updating (x : bool) (st : State) : State :=
  {| m_ram := m_ram st; m_results := m_results st;
     m_search_type_size := m_search_type_size st;
     m_scan_is_initialized := m_scan_is_initialized st; m_updating := x;
     m_result_label := m_result_label st; m_match_table := m_match_table st;
     m_timer_active := m_timer_active st;
     m_refresh_enabled := m_refresh_enabled st;
     m_match_length := m_match_length st;
     m_match_operation := m_match_operation st;
     m_match_value := m_match_value st;
     m_match_decimal := m_match_decimal st;
     m_match_hexadecimal := m_match_hexadecimal st;
     m_ram_checked := m_ram_checked st; m_range_start := m_range_start st;
     m_range_end := m_range_end st;
     m_match_next_enabled := m_match_next_enabled st;
     m_setup_enabled := m_setup_enabled st |}.

Definition set_m_result_label (x : string) (st : State) : State :=
  {| m_ram := m_ram st; m_results := m_results st;
     m_search_type_size := m_search_type_size st;
     m_scan_is_initialized := m_scan_is_initialized st;
     m_updating := m_updating st; m_result_label := x;
     m_match_table := m_match_table st; m_timer_active := m_timer_active st;
     m_refresh_enabled := m_refresh_enabled st;
     m_match_length := m_match_length st;
     m_match_operation := m_match_operation st;
     m_match_value := m_match_value st;
     m_match_decimal := m_match_decimal st;
     m_match_hexadecimal := m_match_hexadecimal st;
     m_ram_checked := m_ram_checked st; m_range_start := m_range_start st;
     m_range_end := m_range_end st;
     m_match_next_enabled := m_match_next_enabled st;
     m_setup_enabled := m_setup_enabled st |}.

Definition set_m_match_table (x : Table) (st : State) : State :=
  {| m_ram := m_ram st; m_results := m_results st;
     m_search_type_size := m_search_type_size st;
     m_scan_is_initialized := m_scan_is_initialized st;
     m_updating := m_updating st; m_result_label := m_result_label st;
     m_match_table := x; m_timer_active := m_timer_active st;
     m_refresh_enabled := m_refresh_enabled st;
     m_match_length := m_match_length st;
     m_match_operation := m_match_operation st;
     m_match_value := m_match_value st;
     m_match_decimal := m_match_decimal st;
     m_match_hexadecimal := m_match_hexadecimal st;
     m_ram_checked := m_ram_checked st; m_range_start := m_range_start st;
     m_range_end := m_range_end st;
     m_match_next_enabled := m_match_next_enabled st;
     m_setup_enabled := m_setup_enabled st |}.

Definition set_m_timer_active (x : bool) (st : State) : State :=
  {| m_ram := m_ram st; m_results := m_results st;
     m_search_type_size := m_search_type_size st;
     m_scan_is_initialized := m_scan_is_initialized st;
     m_updating := m_updating st; m_result_label := m_result_label st;
     m_match_table := m_match_table st; m_timer_active := x;
     m_refresh_enabled := m_refresh_enabled st;
     m_match_length := m_match_length st;
     m_match_operation := m_match_operation st;
     m_match_value := m_match_value st;
     m_match_decimal := m_match_decimal st;
     m_match_hexadecimal := m_match_hexadecimal st;
     m_ram_checked := m_ram_checked st; m_range_start := m_range_start st;
     m_range_end := m_range_end st;
     m_match_next_enabled := m_match_next_enabled st;
     m_setup_enabled := m_setup_enabled st |}.

Definition set_m_range_start (x : string) (st : State) : State :=
  {| m_ram := m_ram st; m_results := m_results st;
     m_search_type_size := m_search_type_size st;
     m_scan_is_initialized := m_scan_is_initialized st;
     m_updating := m_updating st; m_result_label := m_result_label st;
     m_match_table := m_match_table st; m_timer_active := m_timer_active st;
     m_refresh_enabled := m_refresh_enabled st;
     m_match_length := m_match_length st;
     m_match_operation := m_match_operation st;
     m_match_value := m_match_value st;
     m_match_decimal := m_match_decimal st;
     m_match_hexadecimal := m_match_hexadecimal st;
     m_ram_checked := m_ram_checked st; m_range_start := x;
     m_range_end := m_range_end st;
     m_match_next_enabled := m_match_next_enabled st;
     m_setup_enabled := m_setup_enabled st |}.

Definition set_m_range_end (x : string) (st : State) : State :=
  {| m_ram := m_ram st; m_results := m_results st;
     m_search_type_size := m_search_type_size st;
     m_scan_is_initialized := m_scan_is_initialized st;
     m_updating := m_updating st; m_result_label := m_result_label st;
     m_match_table := m_match_table st; m_timer_active := m_timer_active st;
     m_refresh_enabled := m_refresh_enabled st;
     m_match_length := m_match_length st;
     m_match_operation := m_match_operation st;
     m_match_value := m_match_value st;
     m_match_decimal := m_match_decimal st;
     m_match_hexadecimal := m_match_hexadecimal st;
     m_ram_checked := m_ram_checked st; m_range_start := m_range_start st;
     m_range_end := x; m_match_next_enabled := m_match_next_enabled st;
     m_setup_enabled := m_setup_enabled st |}.

Definition set_m_match_next_enabled (x : bool) (st : State) : State :=
  {| m_ram := m_ram st; m_results := m_results st;
     m_search_type_size := m_search_type_size st;
     m_scan_is_initialized := m_scan_is_initialized st;
     m_updating := m_updating st; m_result_label := m_result_label st;
     m_match_table := m_match_table st; m_timer_active := m_timer_active st;
     m_refresh_enabled := m_refresh_enabled st;
     m_match_length := m_match_length st;
     m_match_operation := m_match_operation st;
     m_match_value := m_match_value st;
     m_match_decimal := m_match_decimal st;
     m_match_hexadecimal := m_match_hexadecimal st;
     m_ram_checked := m_ram_checked st; m_range_start := m_range_start st;
     m_range_end := m_range_end st; m_match_next_enabled := x;
     m_setup_enabled := m_setup_enabled st |}.

Definition set_m_setup_enabled (x : bool) (st : State) : State :=
  {| m_ram := m_ram st; m_results := m_results st;
     m_search_type_size := m_search_type_size st;
     m_scan_is_initialized := m_scan_is_initialized st;
     m_updating := m_updating st; m_result_label := m_result_label st;
     m_match_table := m_match_table st; m_timer_active := m_timer_active st;
     m_refresh_enabled := m_refresh_enabled st;
     m_match_length := m_match_length st;
     m_match_operation := m_match_operation st;
     m_match_value := m_match_value st;
     m_match_decimal := m_match_decimal st;
     m_match_hexadecimal := m_match_hexadecimal st;
     m_ram_checked := m_ram_checked st; m_range_start := m_range_start st;
     m_range_end := m_range_end st;
     m_match_next_enabled := m_match_next_enabled st; m_setup_enabled := x |}.

(** The user's edits of the input widgets. *)

Definition set_m_refresh_enabled (x : bool) (st : State) : State :=
  {| m_ram := m_ram st; m_results := m_results st;
     m_search_type_size := m_search_type_size st;
     m_scan_is_initialized := m_scan_is_initialized st;
     m_updating := m_updating st; m_result_label := m_result_label st;
     m_match_table := m_match_table st; m_timer_active := m_timer_active st;
     m_refresh_enabled := x; m_match_length := m_match_length st;
     m_match_operation := m_match_operation st;
     m_match_value := m_match_value st;
     m_match_decimal := m_match_decimal st;
     m_match_hexadecimal := m_match_hexadecimal st;
     m_ram_checked := m_ram_checked st; m_range_start := m_range_start st;
     m_range_end := m_range_end st;
     m_match_next_enabled := m_match_next_enabled st;
     m_setup_enabled := m_setup_enabled st |}.

Definition set_m_match_length (x : Z) (st : State) : State :=
  {| m_ram := m_ram st; m_results := m_results st;
     m_search_type_size := m_search_type_size st;
     m_scan_is_initialized := m_scan_is_initialized st;
     m_updating := m_updating st; m_result_label := m_result_label st;
     m_match_table := m_match_table st; m_timer_active := m_timer_active st;
     m_refresh_enabled := m_refresh_enabled st; m_match_length := x;
     m_match_operation := m_match_operation st;
     m_match_value := m_match_value st;
     m_match_decimal := m_match_decimal st;
     m_match_hexadecimal := m_match_hexadecimal st;
     m_ram_checked := m_ram_checked st; m_range_start := m_range_start st;
     m_range_end := m_range_end st;
     m_match_next_enabled := m_match_next_enabled st;
     m_setup_enabled := m_setup_enabled st |}.

Definition set_m_match_operation (x : Z) (st : State) : State :=
  {| m_ram := m_ram st; m_results := m_results st;
     m_search_type_size := m_search_type_size st;
     m_scan_is_initialized := m_scan_is_initialized st;
     m_updating := m_updating st; m_result_label := m_result_label st;
     m_match_table := m_match_table st; m_timer_active := m_timer_active st;
     m_refresh_enabled := m_refresh_enabled st;
     m_match_length := m_match_length st; m_match_operation := x;
     m_match_value := m_match_value st;
     m_match_decimal := m_match_decimal st;
     m_match_hexadecimal := m_match_hexadecimal st;
     m_ram_checked := m_ram_checked st; m_range_start := m_range_start st;
     m_range_end := m_range_end st;
     m_match_next_enabled := m_match_next_enabled st;
     m_setup_enabled := m_setup_enabled st |}.

Definition set_m_match_value (x : string) (st : State) : State :=
  {| m_ram := m_ram st; m_results := m_results st;
     m_search_type_size := m_search_type_size st;
     m_scan_is_initialized := m_scan_is_initialized st;
     m_updating := m_updating st; m_result_label := m_result_label st;
     m_match_table := m_match_table st; m_timer_active := m_timer_active st;
     m_refresh_enabled := m_refresh_enabled st;
     m_match_length := m_match_length st;
     m_match_operation := m_match_operation st; m_match_value := x;
     m_match_decimal := m_match_decimal st;
     m_match_hexadecimal := m_match_hexadecimal st;
     m_ram_checked := m_ram_checked st; m_range_start := m_range_start st;
     m_range_end := m_range_end st;
     m_match_next_enabled := m_match_next_enabled st;
     m_setup_enabled := m_setup_enabled st |}.

Definition set_m_match_decimal (x : bool) (st : State) : State :=
  {| m_ram := m_ram st; m_results := m_results st;
     m_search_type_size := m_search_type_size st;
     m_scan_is_initialized := m_scan_is_initialized st;
     m_updating := m_updating st; m_result_label := m_result_label st;
     m_match_table := m_match_table st; m_timer_active := m_timer_active st;
     m_refresh_enabled := m_refresh_enabled st;
     m_match_length := m_match_length st;
     m_match_operation := m_match_operation st;
     m_match_value := m_match_value st; m_match_decimal := x;
     m_match_hexadecimal := m_match_hexadecimal st;
     m_ram_checked := m_ram_checked st; m_range_start := m_range_start st;
     m_range_end := m_range_end st;
     m_match_next_enabled := m_match_next_enabled st;
     m_setup_enabled := m_setup_enabled st |}.

Definition set_m_match_hexadecimal (x : bool) (st : State) : State :=
  {| m_ram := m_ram st; m_results := m_results st;
     m_search_type_size := m_search_type_size st;
     m_scan_is_initialized := m_scan_is_initialized st;
     m_updating := m_updating st; m_result_label := m_result_label st;
     m_match_table := m_match_table st; m_timer_active := m_timer_active st;
     m_refresh_enabled := m_refresh_enabled st;
     m_match_length := m_match_length st;
     m_match_operation := m_match_operation st;
     m_match_value := m_match_value st;
     m_match_decimal := m_match_decimal st; m_match_hexadecimal := x;
     m_ram_checked := m_ram_checked st; m_range_start := m_range_start st;
     m_range_end := m_range_end st;
     m_match_next_enabled := m_match_next_enabled st;
     m_setup_enabled := m_setup_enabled st |}.

Definition set_m_ram_checked (x : RegionKind) (st : State) : State :=
  {| m_ram := m_ram st; m_results := m_results st;
     m_search_type_size := m_search_type_size st;
     m_scan_is_initialized := m_scan_is_initialized st;
     m_updating := m_updating st; m_result_label := m_result_label st;
     m_match_table := m_match_table st; m_timer_active := m_timer_active st;
     m_refresh_enabled := m_refresh_enabled st;
     m_match_length := m_match_length st;
     m_match_operation := m_match_operation st;
     m_match_value := m_match_value st;
     m_match_decimal := m_match_decimal st;
     m_match_hexadecimal := m_match_hexadecimal st; m_ram_checked := x;
     m_range_start := m_range_start st; m_range_end := m_range_end st;
     m_match_next_enabled := m_match_next_enabled st;
     m_setup_enabled := m_setup_enabled st |}.

(** ** GetTypeSize *)

Definition GetTypeSize (st : State) : Z :=
  match m_match_length st with
  | 0 => 1      (* DataType::Byte *)
  | 1 => 2      (* DataType::Short *)
  | 2 => 4      (* DataType::Int *)
  | 3 => 4      (* DataType::Float *)
  | _ => 4
  end.

(** ** FilterCheatSearchResults *)

Definition EQUAL : Z := 0x1.
Definition GREATER_THAN : Z := 0x2.
Definition LESS_THAN : Z := 0x4.

(** The table [filters], indexed by the entry of the operation combo
    box: Unknown, Not Equal, Equal, Greater than, Less than. *)
Definition filters : list Z :=
  [ Z.lor (Z.lor EQUAL GREATER_THAN) LESS_THAN;
    Z.lor GREATER_THAN LESS_THAN;
    EQUAL; GREATER_THAN; LESS_THAN ].

(** The mask the loop body computes from the sign of [memcmp]. *)
Definition cmp_mask_of (cmp_result : Z) : Z :=
  if cmp_result <? 0 then LESS_THAN
  else if negb (cmp_result =? 0) then GREATER_THAN
  else EQUAL.

(** [memcmp(&m_ram.ptr[result.address], &value, m_search_type_size)] *)
Definition compare_at (mem : Memory) (n : Z) (result : Result) (value : Z) : Z :=
  memcmp (load mem (address result) n) (take (Z.to_nat n) (bytes_of_u32 value)).

(** [memcpy(&result.old_value, &m_ram.ptr[result.address], m_search_type_size)] *)
Definition refresh (mem : Memory) (n : Z) (result : Result) : Result :=
  {| address := address result;
     old_value := memcpy_u32 (old_value result) (load mem (address result) n) |}.

(** One iteration of the loop over [m_results].  The loop state is the
    local [value] (overwritten when [prev] is set) and the vector
    [filtered_results]. *)
Definition filter_step (mem : Memory) (n filter_mask : Z) (prev : bool)
    (acc : Z * list Result) (result : Result) : Z * list Result :=
  let '(value, filtered_results) := acc in
  let value := if prev then old_value result else value in
  let cmp_mask := cmp_mask_of (compare_at mem n result value) in
  if negb (Z.land cmp_mask filter_mask =? 0) then
    (value, filtered_results ++ [refresh mem n result])
  else (value, filtered_results).

Definition FilterCheatSearchResults (host : Host) (value : Z) (prev : bool)
    (st : State) : State :=
  let filter_mask := nth (Z.to_nat (m_match_operation st)) filters 0 in
  let mem := deref host (ram_ptr (m_ram st)) in
  let '(_, filtered_results) :=
    foldl (filter_step mem (m_search_type_size st) filter_mask prev)
      (value, []) (m_results st) in
  set_m_results filtered_results st.

(** The operand a candidate is compared with: its own recorded value
    when [prev] is set, the search value otherwise. *)
Definition operand (prev : bool) (value : Z) (r : Result) : Z :=
  if prev then old_value r else value.

(** The classification of a candidate against an operand. *)
Definition classify (mem : Memory) (n : Z) (r : Result) (v : Z) : Z :=
  cmp_mask_of (compare_at mem n r v).

(** The candidate's classification bit is set in the mask. *)
Definition bit_set (mem : Memory) (n mask : Z) (prev : bool) (value : Z)
    (r : Result) : Prop :=
  Z.land (classify mem n r (operand prev value r)) mask ≠ 0.

Global Instance bit_set_dec mem n mask prev value r :
  Decision (bit_set mem n mask prev value r).
Proof. unfold bit_set. apply _. Defined.

(** ** Calls into the emulator, with their trace *)

Inductive HostCall :=
  | CallIsRAMAddress (a : Z)
  | CallRead_U8 (a : Z)
  | CallRead_U16 (a : Z)
  | CallRead_U32 (a : Z)
  | CallRead_F32 (a : Z).

(** A computation that returns a value and the calls it made, oldest
    first. *)
Definition Traced (A : Type) : Type := A * list HostCall.

Definition ret {A} (x : A) : Traced A := (x, []).

Definition bind {A B} (m : Traced A) (k : A → Traced B) : Traced B :=
  let '(x, t1) := m in
  let '(y, t2) := k x in
  (y, t1 ++ t2).

Notation "'let*' x := m 'in' k" := (bind m (λ x, k))
  (at level 10, x name, m at level 100, k at level 200).

Definition call {A} (c : HostCall) (x : A) : Traced A := (x, [c]).

Definition isRAMAddress (host : Host) (a : Z) : Traced bool :=
  call (CallIsRAMAddress a) (HostIsRAMAddress host a).
Definition read_U8 (host : Host) (a : Z) : Traced Z :=
  call (CallRead_U8 a) (HostRead_U8 host a).
Definition read_U16 (host : Host) (a : Z) : Traced Z :=
  call (CallRead_U16 a) (HostRead_U16 host a).
Definition read_U32 (host : Host) (a : Z) : Traced Z :=
  call (CallRead_U32 a) (HostRead_U32 host a).
Definition read_F32 (host : Host) (a : Z) : Traced Z :=
  call (CallRead_F32 a) (HostRead_F32 host a).

(** A [for] loop over [l] that threads the loop state [s]. *)
Fixpoint for_each {A S : Type} (body : S → A → Traced S) (s : S) (l : list A)
    : Traced S :=
  match l with
  | [] => ret s
  | x :: l' => let* s' := body s x in for_each body s' l'
  end.

(** ** The table widget *)

Definition clearContents (t : Table) : Table :=
  {| rowCount := rowCount t; cells := ∅ |}.

(** [setRowCount]: rows beyond the new count are removed with their
    items. *)
Definition setRowCount (n : Z) (t : Table) : Table :=
  {| rowCount := n; cells := filter (λ kv, kv.1.1 < n) (cells t) |}.

(** [setItem(row, column, item)]; Qt ignores an item outside the table. *)
Definition setItem (row column : Z) (item : Item) (t : Table) : Table :=
  if bool_decide (0 ≤ row < rowCount t ∧ 0 ≤ column < 4) then
    {| rowCount := rowCount t; cells := <[(row, column) := item]> (cells t) |}
  else t.

(** ** Update *)

Definition too_many_matches (n : Z) : string :=
  "Too many matches to display (" +:+ number n +:+ ")".

Definition matches (n : Z) : string := number n +:+ " Match(es)".

(** The text of the hexadecimal cell when the address is readable:
    the [switch (m_search_type_size)] of [Update]. *)
Definition Update_value_text (host : Host) (type_size address : Z) : Traced string :=
  match type_size with
  | 1 => let* v := read_U8 host address in ret (arg16 v 2 "0")
  | 2 => let* v := read_U16 host address in ret (arg16 v 4 "0")
  | 4 => let* v := read_U32 host address in ret (arg16 v 8 "0")
  | _ => let* v := read_U32 host address in ret (arg16 v 8 "0")
  end.

(** The text of the decimal cell: the hexadecimal text parsed again,
    or a dash. *)
Definition int_text (value_text : string) : string :=
  let '(v, ok) := toUInt value_text 16 in
  if ok then number v else "-".

Definition cell (i : Z) (s : string) : Item :=
  {| text := s; index_role := Some i |}.

(** Body of the loop of [Update] for row [i]. *)
Definition Update_row (host : Host) (st : State) (t : Table) (i : Z) : Traced Table :=
  let address := wrap32 (address (m_results st !!! Z.to_nat i) + ram_base (m_ram st)) in
  let address_item := arg16 address 8 "0" in
  let* is_ram := isRAMAddress host address in
  let* value_item :=
    if is_ram then Update_value_text host (m_search_type_size st) address
    else ret "---" in
  let* f := read_F32 host address in
  let float_item := number_float host f in
  let int_item := int_text value_item in
  ret (setItem i 3 (cell i float_item)
        (setItem i 2 (cell i int_item)
          (setItem i 1 (cell i value_item)
            (setItem i 0 (cell i address_item) t)))).

Definition Update (host : Host) (st : State) : Traced State :=
  let st := set_m_updating true st in
  let st := set_m_match_table (clearContents (m_match_table st)) st in
  if bool_decide (m_results st = []) then
    let st := set_m_result_label "" st in
    let st := set_m_timer_active false st in
    let st := set_m_match_table (setRowCount 0 (m_match_table st)) st in
    ret (set_m_updating false st)
  else
    let st := if m_refresh_enabled st then set_m_timer_active true st else st in
    let size := Z.of_nat (length (m_results st)) in
    let results_display := size in
    let '(results_display, st) :=
      if bool_decide (results_display > MAX_RESULTS) then
        (MAX_RESULTS, set_m_result_label (too_many_matches size) st)
      else (results_display, st) in
    let st := set_m_match_table (setRowCount results_display (m_match_table st)) st in
    let st := set_m_result_label (matches size) st in
    let st := set_m_match_table (setRowCount size (m_match_table st)) st in
    let* t := for_each (Update_row host st) (m_match_table st) (seqZ 0 results_display) in
    ret (set_m_updating false (set_m_match_table t st)).

(** ** TimedUpdate *)

(** The hexadecimal and the float text of a readable address: the
    [switch (m_search_type_size)] of [TimedUpdate].  The float cell is
    written in the four-byte cases only. *)
Definition TimedUpdate_texts (host : Host) (type_size address : Z)
    : Traced (string * string) :=
  match type_size with
  | 1 => let* v := read_U8 host address in ret (arg16 v 2 "0", "")
  | 2 => let* v := read_U16 host address in ret (arg16 v 4 "0", "")
  | 4 => let* v := read_U32 host address in
         let* f := read_F32 host address in
         ret (arg16 v 8 "0", number_float host f)
  | _ => let* v := read_U32 host address in
         let* f := read_F32 host address in
         ret (arg16 v 8 "0", number_float host f)
  end.

(** Body of the loop of [TimedUpdate] for row [i]. *)
Definition TimedUpdate_row (host : Host) (st : State) (t : Table) (i : Z) : Traced Table :=
  let address := wrap32 (address (m_results st !!! Z.to_nat i) + ram_base (m_ram st)) in
  let* is_ram := isRAMAddress host address in
  let* texts :=
    if is_ram then TimedUpdate_texts host (m_search_type_size st) address
    else ret ("---", "") in
  let value_item := texts.1 in
  let float_item := texts.2 in
  let int_item := int_text value_item in
  ret (setItem i 3 (cell i float_item)
        (setItem i 2 (cell i int_item)
          (setItem i 1 (cell i value_item) t))).

(** [rowAt_top] and [rowAt_bottom] are what
    [m_match_table->rowAt(m_match_table->rect().top())] and
    [...rect().bottom())] return for the table after [setRowCount]:
    the rows at the edges of the visible part, -1 where there is none. *)
Definition TimedUpdate (host : Host) (rowAt_top rowAt_bottom : Table → Z)
    (st : State) : Traced State :=
  if m_updating st then ret st
  else if bool_decide (m_results st = []) then
    let st := set_m_result_label "" st in
    let st := set_m_timer_active false st in
    ret (set_m_match_table (setRowCount 0 (m_match_table st)) st)
  else
    let size := Z.of_nat (length (m_results st)) in
    let '(results_display, st) :=
      if bool_decide (size > MAX_RESULTS) then
        (MAX_RESULTS, set_m_result_label (too_many_matches size) st)
      else (size, st) in
    let st := set_m_match_table (setRowCount results_display (m_match_table st)) st in
    let first_row := rowAt_top (m_match_table st) in
    let last_row := rowAt_bottom (m_match_table st) in
    let last_row := if last_row =? -1 then rowCount (m_match_table st) else last_row in
    let* t := for_each (TimedUpdate_row host st) (m_match_table st)
                (seqZ first_row (last_row - first_row + 1)) in
    ret (set_m_match_table t st).

(** ** MemoryPtr *)

Definition MemoryPtr (host : Host) (update : bool) (st : State) : State :=
  let st :=
    match m_ram_checked st, region_buffer host (m_ram_checked st) with
    | MainRAM, Some _ =>
        set_m_ram {| ram_ptr := Some MainRAM;
                     ram_size := region_size host MainRAM;
                     ram_base := 0x80000000 |} st
    | WiiRAM, Some _ =>
        set_m_ram {| ram_ptr := Some WiiRAM;
                     ram_size := region_size host WiiRAM;
                     ram_base := 0x90000000 |} st
    | FakeVMEM, Some _ =>
        set_m_ram {| ram_ptr := Some FakeVMEM;
                     ram_size := region_size host FakeVMEM;
                     ram_base := 0x7E000000 |} st
    | _, None => set_m_result_label "Memory region is invalid." st
    end in
  if negb update then st
  else
    let st := set_m_range_start (arg16 (ram_base (m_ram st)) 8 " ") st in
    set_m_range_end (arg16 (ram_base (m_ram st) + ram_size (m_ram st)) 8 " ") st.

(** ** OnNewSearchClicked *)

(** The bounds of the scan: [range_start] and [range_end] as
    [OnNewSearchClicked] computes them from the two range edits. *)
Definition search_range (ram : Ram) (start_text end_text : string) : Z * Z :=
  let range_start := 0 in
  let range_end := wrap32 (ram_size ram) in
  let '(v, good) := toUInt start_text 16 in
  let custom_start := Z.land (wrap32 (v - ram_base ram)) 0xfffffff0 in
  let custom_start := if negb good then range_start else custom_start in
  let '(v, good) := toUInt end_text 16 in
  let custom_end := Z.land (wrap32 (v - ram_base ram)) 0xfffffff0 in
  let custom_end := if negb good then range_end else custom_end in
  let range_start :=
    if (custom_start >? range_start) && (custom_start <? custom_end)
       && (custom_start <? range_end)
    then custom_start else range_start in
  let range_end :=
    if (custom_end <? range_end) && (custom_end >? custom_start)
       && (custom_end >? range_start)
    then custom_end else range_end in
  (range_start, range_end).

(** The scan loop
    [for (u32 addr = range_start; addr != range_end; addr += m_search_type_size)].
    It stops when [addr] meets [range_end] exactly, so it is given
    [fuel], one unit per test of the condition; [None] is fuel
    exhausted.  [r] is the local [Result r], reused by every iteration. *)
Fixpoint scan (fuel : nat) (mem : Memory) (n range_end addr : Z) (r : Result)
    (results : list Result) : option (list Result) :=
  match fuel with
  | O => None
  | S fuel' =>
      if addr =? range_end then Some results
      else
        let r := {| address := addr;
                    old_value := memcpy_u32 (old_value r) (load mem addr n) |} in
        scan fuel' mem n range_end (wrap32 (addr + n)) r (results ++ [r])
  end.

(** [r] is the content of the local [Result r] before the loop, which
    the source declares without an initialiser. *)
Definition OnNewSearchClicked (fuel : nat) (host : Host) (r : Result) (st : State)
    : option (Traced State) :=
  if negb (IsRunningAndStarted host) then
    Some (ret (set_m_result_label "Game is not currently running." st))
  else
    let st := MemoryPtr host false st in
    match ram_ptr (m_ram st) with
    | None => Some (ret st)
    | Some _ =>
        let st := set_m_setup_enabled false st in
        let st := set_m_search_type_size (GetTypeSize st) st in
        let st := set_m_results [] st in
        let st := set_m_scan_is_initialized true st in
        let st := set_m_match_next_enabled true st in
        let '(range_start, range_end) :=
          search_range (m_ram st) (m_range_start st) (m_range_end st) in
        match scan fuel (deref host (ram_ptr (m_ram st))) (m_search_type_size st)
                range_end range_start r (m_results st) with
        | None => None
        | Some results => Some (Update host (set_m_results results st))
        end
    end.

(** ** NextSearch and SwapValue *)

(** [*(u16* )&value = Common::swap16((u8* )&value)]: the [u16] read at
    the address of [value] is swapped and stored back there; the two
    bytes behind it stay. *)
Definition swap16_in_place (value : Z) : Z :=
  let data := u32_of_bytes (take 2 (bytes_of_u32 value)) in
  memcpy_u32 value (bytes_of_u16 (swap16 data)).

Definition SwapValue (st : State) (value : Z) : Z :=
  match GetTypeSize st with
  | 2 => swap16_in_place value
  | 4 => swap32 value
  | _ => value
  end.

Definition NextSearch (host : Host) (st : State) : Traced State :=
  match ram_ptr (m_ram st) with
  | None => ret (set_m_result_label "Memory Not Ready" st)
  | Some _ =>
      let is_float := m_match_length st =? 3 in
      let base :=
        if is_float then 16
        else if m_match_decimal st then 10
        else if m_match_hexadecimal st then 16 else 8 in
      let blank_user_value := bool_decide (m_match_value st = "") in
      let parsed : Z * bool :=
        if blank_user_value then (0, true)
        else
          let '(value, good) :=
            if is_float then toFloat host (m_match_value st)
            else toULong (m_match_value st) base in
          let val := wrap32 value in
          (match GetTypeSize st with
           | 2 => swap16_in_place val
           | 4 => swap32 val
           | _ => val
           end, good) in
      let '(val, good) := parsed in
      if negb good then ret (set_m_result_label "Incorrect search value." st)
      else Update host (FilterCheatSearchResults host val blank_user_value st)
  end.

(** ** Reset *)

Definition Reset (host : Host) (st : State) : Traced State :=
  let st := set_m_results [] st in
  let st := set_m_match_table (setRowCount 0 (m_match_table st)) st in
  let st := set_m_match_next_enabled false st in
  let st := set_m_setup_enabled true st in
  let st := set_m_match_table (clearContents (m_match_table st)) st in
  let st := set_m_updating false st in
  let st := set_m_result_label "" st in
  Update host st.

(** ** A small machine for the scenarios *)

(** A memory that holds the bytes of [l] from offset 0 on. *)
Definition mem_of_list (l : list Z) : Memory :=
  λ a, byte_of (if a <? 0 then 0 else nth (Z.to_nat a) l 0).

(** A running game whose main RAM holds [l]; the other regions are not
    allocated, and the readable addresses are those of main RAM. *)
Definition machine (l : list Z) : Host :=
  let size := Z.of_nat (length l) in
  let at_ a := a - 0x80000000 in
  {| IsRunningAndStarted := true;
     region_buffer := λ k, match k with MainRAM => Some (mem_of_list l) | _ => None end;
     region_size := λ _, size;
     HostIsRAMAddress := λ a, bool_decide (0x80000000 ≤ a < 0x80000000 + size);
     HostRead_U8 := λ a, be_decode (load (mem_of_list l) (at_ a) 1);
     HostRead_U16 := λ a, be_decode (load (mem_of_list l) (at_ a) 2);
     HostRead_U32 := λ a, be_decode (load (mem_of_list l) (at_ a) 4);
     HostRead_F32 := λ a, be_decode (load (mem_of_list l) (at_ a) 4);
     number_float := λ bits, "float:" +:+ number bits;
     toFloat := λ _, (0, false) |}.

(** The dialog as its constructor leaves it: 32-bit selected, main RAM
    checked, none of the base radios checked, the default range. *)
Definition fresh : State :=
  {| m_ram := {| ram_ptr := None; ram_size := 0; ram_base := 0 |};
     m_results := [];
     m_search_type_size := 0;
     m_scan_is_initialized := false;
     m_updating := false;
     m_result_label := "";
     m_match_table := {| rowCount := 0; cells := ∅ |};
     m_timer_active := false;
     m_refresh_enabled := false;
     m_match_length := 2;
     m_match_operation := 0;
     m_match_value := "";
     m_match_decimal := false;
     m_match_hexadecimal := false;
     m_ram_checked := MainRAM;
     m_range_start := "80000000";
     m_range_end := "81800000";
     m_match_next_enabled := false;
     m_setup_enabled := true |}.

(** A search on main RAM of [size] bytes that holds [results]. *)
Definition searching (size type_size : Z) (results : list Result) : State :=
  set_m_ram {| ram_ptr := Some MainRAM; ram_size := size; ram_base := 0x80000000 |}
    (set_m_search_type_size type_size
      (set_m_scan_is_initialized true
        (set_m_results results fresh))).

(** Scenario B: two 32-bit candidates that hold 5 and 9, and the user
    asks for the values equal to decimal 5. *)
Definition scenario_B_memory : list Z := [0; 0; 0; 5; 0; 0; 0; 9].

Definition scenario_B : State :=
  set_m_match_operation 2
    (set_m_match_value "5"
      (set_m_match_decimal true
        (searching 8 4 [ {| address := 0; old_value := 0x05000000 |};
                         {| address := 4; old_value := 0x09000000 |} ]))).

(** Scenario C: the same candidates, the first value has become 6, and
    the user asks for Unknown with no value. *)
Definition scenario_C_memory : list Z := [0; 0; 0; 6; 0; 0; 0; 9].

Definition scenario_C : State :=
  searching 8 4 [ {| address := 0; old_value := 0x05000000 |};
                  {| address := 4; old_value := 0x09000000 |} ].

(** ** Notions used to state the properties of the initial scan *)

(** The base address [MemoryPtr] stores for a region. *)
Definition base_of (k : RegionKind) : Z :=
  match k with
  | MainRAM => 0x80000000
  | WiiRAM => 0x90000000
  | FakeVMEM => 0x7E000000
  end.

(** The region [MemoryPtr] resolves when the checked region is
    allocated. *)
Definition region_of (host : Host) (st : State) : Ram :=
  {| ram_ptr := Some (m_ram_checked st);
     ram_size := region_size host (m_ram_checked st);
     ram_base := base_of (m_ram_checked st) |}.

(** The entry the scan loop pushes for offset [a], when the local [r]
    held [r] before the loop. *)
Definition scanned (mem : Memory) (n : Z) (r : Result) (a : Z) : Result :=
  {| address := a; old_value := memcpy_u32 (old_value r) (load mem a n) |}.

(** The local [r] of the scan loop differs from its content [r0] before
    the loop at most in the [n] bytes that every iteration overwrites. *)
Definition same_tail (n : Z) (r0 r : Result) : Prop :=
  ∀ src, length src = Z.to_nat n →
         memcpy_u32 (old_value r) src = memcpy_u32 (old_value r0) src.

(** The offsets [lo], [lo + n], ... below [hi]. *)
Definition offsets (n lo hi : Z) : list Z :=
  (λ i, lo + i * n) <$> seqZ 0 ((hi - lo) / n).

(** The invariant of the candidate list: every offset is a multiple of
    the element size [n] and lies in the window from [lo] to [hi], and
    the offsets increase strictly along the list. *)
Definition candidates_ok (n lo hi : Z) (results : list Result) : Prop :=
  Forall (λ c, address c mod n = 0 ∧ lo ≤ address c < hi) results
  ∧ StronglySorted Z.lt (address <$> results).

(** The invariant on the dialog, for a window from [lo] to [hi]. *)
Definition Inv (lo hi : Z) (st : State) : Prop :=
  candidates_ok (m_search_type_size st) lo hi (m_results st).

(** The region-relative offset the text of a range edit denotes: the
    parsed address minus the base of the region, as a [u32]. *)
Definition offset_of (ram : Ram) (text : string) : Z :=
  wrap32 ((toUInt text 16).1 - ram_base ram).

(** What the text of a range edit can be: nothing that parses, or an
    offset outside the region; and a start that is not below the end. *)
Definition malformed (text : string) : Prop := (toUInt text 16).2 = false.

Definition outside (ram : Ram) (text : string) : Prop :=
  (toUInt text 16).2 = true ∧ ram_size ram ≤ offset_of ram text.

Definition inverted (ram : Ram) (start_text end_text : string) : Prop :=
  (toUInt start_text 16).2 = true ∧ (toUInt end_text 16).2 = true
  ∧ offset_of ram end_text ≤ offset_of ram start_text.

(** Scenario D, at the smallest size that exceeds the cap: 4097
    candidates on a 24 MiB main RAM. *)
Definition crowded : State :=
  searching 0x1800000 4
    ((λ i, {| address := 4 * i; old_value := 0 |}) <$> seqZ 0 4097).

(** The value edit holds a value that [NextSearch] accepts: a float in
    the float mode, an integer of the chosen base otherwise. *)
Definition value_parses (host : Host) (st : State) : bool :=
  if m_match_length st =? 3 then (toFloat host (m_match_value st)).2
  else (toULong (m_match_value st)
          (if m_match_decimal st then 10
           else if m_match_hexadecimal st then 16 else 8)).2.

(** The machine of scenario B while the emulated CPU maps no address:
    main RAM is allocated and holds [l], but [PowerPC::HostIsRAMAddress]
    answers no for every address, those of main RAM included. *)
Definition unmapped (l : list Z) : Host :=
  {| IsRunningAndStarted := IsRunningAndStarted (machine l);
     region_buffer := region_buffer (machine l);
     region_size := region_size (machine l);
     HostIsRAMAddress := λ _, false;
     HostRead_U8 := HostRead_U8 (machine l);
     HostRead_U16 := HostRead_U16 (machine l);
     HostRead_U32 := HostRead_U32 (machine l);
     HostRead_F32 := HostRead_F32 (machine l);
     number_float := number_float (machine l);
     toFloat := toFloat (machine l) |}.

(** Main RAM of a GameCube title: 24 MiB at 0x80000000. *)
Definition main_ram : Ram :=
  {| ram_ptr := Some MainRAM; ram_size := 0x1800000; ram_base := 0x80000000 |}.

(** Scenario A: a region of 16 bytes, 32-bit elements, and nothing in
    the two range edits. *)
Definition scenario_A_memory : list Z :=
  [1; 2; 3; 4; 5; 6; 7; 8; 9; 10; 11; 12; 13; 14; 15; 16].

Definition scenario_A : State :=
  set_m_range_start "" (set_m_range_end "" fresh).

(** ** Notions used to state what a search finds *)

(** The number the emulated machine sees at a candidate's offset: the
    element bytes read big-endian, as an unsigned number. *)
Definition current_value (mem : Memory) (n : Z) (r : Result) : Z :=
  be_decode (load mem (address r) n).

(** The comparison an entry of the operation combo box stands for:
    Unknown, Not Equal, Equal, Greater than, Less than. *)
Definition compares (op : Z) (a b : Z) : Prop :=
  match op with
  | 0 => True
  | 1 => a ≠ b
  | 2 => a = b
  | 3 => b < a
  | 4 => a < b
  | _ => False
  end.

Global Instance compares_dec op a b : Decision (compares op a b).
Proof.
  unfold compares.
  destruct op as [|[[[]|[]|]|[[]|[]|]|]|]; apply _.
Defined.

(** The base [NextSearch] parses an integer value in. *)
Definition value_base (st : State) : Z :=
  if m_match_decimal st then 10
  else if m_match_hexadecimal st then 16 else 8.

(** The recorded values of the candidates are the bytes that [mem]
    holds at their offsets. *)
Definition up_to_date (mem : Memory) (n : Z) (results : list Result) : Prop :=
  ∀ r, r ∈ results →
       take (Z.to_nat n) (bytes_of_u32 (old_value r)) = load mem (address r) n.

(** The state in which the user has chosen entry [op] of the operation
    combo box and emptied the value edit. *)
Definition blank (op : Z) (st : State) : State :=
  set_m_match_value "" (set_m_match_operation op st).

(** A region of six bytes, which 32-bit elements do not divide. *)
Definition ragged_memory : list Z := [1; 2; 3; 4; 5; 6].

(** ** Notions used to state what the refresh asks of the emulator *)

(** A call is guarded: it is the question whether an address is
    readable, or a read at an address for which the answer is yes. *)
Definition guarded (host : Host) (c : HostCall) : Prop :=
  match c with
  | CallIsRAMAddress _ => True
  | CallRead_U8 a | CallRead_U16 a | CallRead_U32 a | CallRead_F32 a =>
      HostIsRAMAddress host a = true
  end.

(** The same for the integer reads only. *)
Definition integer_guarded (host : Host) (c : HostCall) : Prop :=
  match c with
  | CallRead_U8 a | CallRead_U16 a | CallRead_U32 a =>
      HostIsRAMAddress host a = true
  | _ => True
  end.

(** The addresses a trace asks [HostIsRAMAddress] about, in order. *)
Definition queried (trace : list HostCall) : list Z :=
  omap (λ c, match c with CallIsRAMAddress a => Some a | _ => None end) trace.

(** The absolute address of a candidate. *)
Definition absolute (st : State) (r : Result) : Z :=
  wrap32 (address r + ram_base (m_ram st)).

(** The value [Update] and [TimedUpdate] read at an address for an
    element size, and the number of hexadecimal digits they show. *)
Definition read_at (host : Host) (n a : Z) : Z :=
  match n with
  | 1 => HostRead_U8 host a
  | 2 => HostRead_U16 host a
  | _ => HostRead_U32 host a
  end.

Definition digits_of (n : Z) : nat :=
  match n with
  | 1 => 2
  | 2 => 4
  | _ => 8
  end.

(** Row [i] of a table holds the four texts [Update] writes for
    candidate [i]. *)
Definition row_shown (host : Host) (st : State) (i : Z) (t : Table) : Prop :=
  let a := absolute st (m_results st !!! Z.to_nat i) in
  let value_item :=
    if HostIsRAMAddress host a
    then arg16 (read_at host (m_search_type_size st) a)
           (digits_of (m_search_type_size st)) "0"
    else "---" in
  cells t !! (i, 0) = Some (cell i (arg16 a 8 "0"))
  ∧ cells t !! (i, 1) = Some (cell i value_item)
  ∧ cells t !! (i, 2) = Some (cell i (int_text value_item))
  ∧ cells t !! (i, 3) = Some (cell i (number_float host (HostRead_F32 host a))).

(** * Properties *)

(** ** Bytes and words *)

Section bytes.

Local Arguments bytes_of_u32 : simpl never.
Local Arguments u32_of_bytes : simpl never.

Lemma u8_range b : 0 ≤ u8 b < 256.
Proof.
  unfold u8. pose proof (Byte.to_N_bounded b). lia.
Qed.

Lemma byte_of_eq z b : z mod 256 = u8 b → byte_of z = b.
Proof.
  unfold byte_of, u8. intros ->.
  by rewrite N2Z.id, Byte.of_to_N.
Qed.

Lemma byte_of_u8 b : byte_of (u8 b) = b.
Proof.
  apply byte_of_eq, Z.mod_small, u8_range.
Qed.

Lemma u8_byte_of z : u8 (byte_of z) = z mod 256.
Proof.
  unfold byte_of, u8.
  assert (Hr : 0 ≤ z mod 256 < 256) by (apply Z.mod_pos_bound; lia).
  destruct (Byte.of_N (Z.to_N (z mod 256))) as [b|] eqn:E; simpl.
  - apply Byte.to_of_N in E. rewrite E. lia.
  - apply Byte.of_N_None_iff in E. lia.
Qed.

Lemma u8_inj b1 b2 : u8 b1 = u8 b2 → b1 = b2.
Proof.
  intros E. by rewrite <- (byte_of_u8 b1), <- (byte_of_u8 b2), E.
Qed.

Lemma length_bytes_of_u32 v : length (bytes_of_u32 v) = 4%nat.
Proof. done. Qed.

Lemma length_load mem a n : length (load mem a n) = Z.to_nat n.
Proof.
  unfold load. by rewrite length_fmap, length_seqZ.
Qed.

Lemma bytes_of_u32_of_bytes b0 b1 b2 b3 :
  bytes_of_u32 (u32_of_bytes [b0; b1; b2; b3]) = [b0; b1; b2; b3].
Proof.
  pose proof (u8_range b0). pose proof (u8_range b1).
  pose proof (u8_range b2). pose proof (u8_range b3).
  unfold bytes_of_u32, u32_of_bytes. simpl.
  repeat f_equal; apply byte_of_eq; rewrite Z.shiftr_div_pow2 by lia;
    simpl Z.pow; Z.div_mod_to_equations; lia.
Qed.

Lemma bytes_of_u32_four v :
  ∃ b0 b1 b2 b3, bytes_of_u32 v = [b0; b1; b2; b3].
Proof. unfold bytes_of_u32. simpl. eauto. Qed.

Lemma u32_of_bytes_of_u32 v : u32_of_bytes (bytes_of_u32 v) = wrap32 v.
Proof.
  unfold bytes_of_u32, u32_of_bytes, wrap32. simpl.
  rewrite !u8_byte_of, !Z.shiftr_div_pow2 by lia.
  simpl Z.pow. Z.div_mod_to_equations. lia.
Qed.

(** After [memcpy], the first bytes of the target are the source. *)
Lemma memcpy_u32_prefix dst src :
  (length src ≤ 4)%nat →
  take (length src) (bytes_of_u32 (memcpy_u32 dst src)) = src.
Proof.
  intros Hlen. unfold memcpy_u32.
  destruct (bytes_of_u32_four dst) as (d0 & d1 & d2 & d3 & ->).
  destruct src as [|s0 [|s1 [|s2 [|s3 [|? ?]]]]];
    cbn [length] in Hlen; try lia;
    cbn [app drop take length]; by rewrite bytes_of_u32_of_bytes.
Qed.

(** The bytes behind the copied ones are those of the old target. *)
Lemma memcpy_u32_suffix dst src :
  (length src ≤ 4)%nat →
  drop (length src) (bytes_of_u32 (memcpy_u32 dst src))
  = drop (length src) (bytes_of_u32 dst).
Proof.
  intros Hlen. unfold memcpy_u32.
  destruct (bytes_of_u32_four dst) as (d0 & d1 & d2 & d3 & ->).
  destruct src as [|s0 [|s1 [|s2 [|s3 [|? ?]]]]];
    cbn [length] in Hlen; try lia;
    cbn [app drop take length]; by rewrite bytes_of_u32_of_bytes.
Qed.

(** A second [memcpy] of the same length overwrites the first. *)
Lemma memcpy_u32_again dst s1 s2 :
  length s1 = length s2 → (length s2 ≤ 4)%nat →
  memcpy_u32 (memcpy_u32 dst s1) s2 = memcpy_u32 dst s2.
Proof.
  intros Heq Hlen. unfold memcpy_u32 at 1 3.
  rewrite <- Heq at 1. rewrite memcpy_u32_suffix by lia. by rewrite Heq.
Qed.

End bytes.

(** ** Byte-wise comparison and big-endian order *)

Section ordering.

Lemma be_decode_from acc l :
  foldl (λ a b, 256 * a + u8 b) acc l
  = acc * 256 ^ Z.of_nat (length l) + be_decode l.
Proof.
  unfold be_decode. revert acc.
  induction l as [|b l IH]; intros acc; simpl foldl; simpl length.
  - change (Z.of_nat 0) with 0. lia.
  - rewrite IH, (IH (256 * 0 + u8 b)).
    rewrite Nat2Z.inj_succ, Z.pow_succ_r by lia. lia.
Qed.

Lemma be_decode_cons b l :
  be_decode (b :: l) = u8 b * 256 ^ Z.of_nat (length l) + be_decode l.
Proof.
  unfold be_decode at 1. simpl foldl. rewrite be_decode_from. lia.
Qed.

Lemma be_decode_bound l : 0 ≤ be_decode l < 256 ^ Z.of_nat (length l).
Proof.
  induction l as [|b l IH].
  - by compute.
  - rewrite be_decode_cons. simpl length.
    rewrite Nat2Z.inj_succ, Z.pow_succ_r by lia.
    pose proof (u8_range b). nia.
Qed.

(** The sign of [memcmp] on two ranges of the same length is the
    order of the big-endian numbers they hold. *)
Lemma memcmp_be_order s1 s2 :
  length s1 = length s2 →
  (memcmp s1 s2 < 0 ↔ be_decode s1 < be_decode s2)
  ∧ (memcmp s1 s2 = 0 ↔ be_decode s1 = be_decode s2)
  ∧ (0 < memcmp s1 s2 ↔ be_decode s2 < be_decode s1).
Proof.
  revert s2. induction s1 as [|b1 s1 IH]; intros [|b2 s2] Hlen;
    simpl in Hlen; try discriminate.
  - simpl. lia.
  - injection Hlen as Hlen. specialize (IH s2 Hlen).
    rewrite !be_decode_cons, <- Hlen. simpl memcmp.
    pose proof (be_decode_bound s1) as B1.
    pose proof (be_decode_bound s2) as B2. rewrite <- Hlen in B2.
    pose proof (u8_range b1). pose proof (u8_range b2).
    set (p := 256 ^ Z.of_nat (length s1)) in *.
    destruct (Z.eqb_spec (u8 b1) (u8 b2)) as [E|E].
    + rewrite E. lia.
    + nia.
Qed.

Lemma memcmp_zero_eq s1 s2 :
  length s1 = length s2 → memcmp s1 s2 = 0 → s1 = s2.
Proof.
  revert s2. induction s1 as [|b1 s1 IH]; intros [|b2 s2] Hlen;
    simpl in Hlen; try discriminate; [done|].
  injection Hlen as Hlen. simpl.
  destruct (Z.eqb_spec (u8 b1) (u8 b2)) as [E|E]; [|lia].
  intros H0. f_equal; [by apply u8_inj | by apply IH].
Qed.

Lemma cmp_mask_of_spec c :
  (cmp_mask_of c = LESS_THAN ↔ c < 0)
  ∧ (cmp_mask_of c = EQUAL ↔ c = 0)
  ∧ (cmp_mask_of c = GREATER_THAN ↔ 0 < c).
Proof.
  unfold cmp_mask_of, LESS_THAN, EQUAL, GREATER_THAN.
  destruct (Z.ltb_spec c 0); [lia|].
  destruct (Z.eqb_spec c 0); simpl; lia.
Qed.

Lemma cmp_mask_of_cases c :
  cmp_mask_of c = EQUAL ∨ cmp_mask_of c = GREATER_THAN
  ∨ cmp_mask_of c = LESS_THAN.
Proof.
  unfold cmp_mask_of.
  destruct (c <? 0); [auto|]. destruct (c =? 0); simpl; auto.
Qed.

End ordering.

(** ** The refine pass *)

Section refine.

Context (mem : Memory) (n mask : Z) (prev : bool).

Lemma filter_step_decide value acc v r :
  (prev = false → v = value) →
  filter_step mem n mask prev (v, acc) r
  = (operand prev value r,
     if decide (bit_set mem n mask prev value r)
     then acc ++ [refresh mem n r] else acc).
Proof.
  intros Hv. unfold filter_step, bit_set, classify, operand.
  assert (Hop : (if prev then old_value r else v)
                = (if prev then old_value r else value)).
  { destruct prev; [done|]. by rewrite Hv. }
  rewrite Hop. set (m := Z.land _ mask).
  destruct (Z.eqb_spec m 0) as [E|E]; simpl negb; cbv iota.
  - by rewrite decide_False by (intros H; by apply H).
  - by rewrite decide_True by done.
Qed.

Lemma filter_loop value results acc v :
  (prev = false → v = value) →
  ∃ v', foldl (filter_step mem n mask prev) (v, acc) results
        = (v', acc ++ (refresh mem n <$> filter (bit_set mem n mask prev value) results)).
Proof.
  revert acc v. induction results as [|r results IH]; intros acc v Hv.
  - simpl. exists v. by rewrite app_nil_r.
  - cbn [foldl]. rewrite (filter_step_decide value) by done.
    rewrite filter_cons.
    destruct (IH (if decide (bit_set mem n mask prev value r)
                  then acc ++ [refresh mem n r] else acc)
                (operand prev value r)) as (v' & ->).
    { unfold operand. by intros ->. }
    exists v'. f_equal.
    destruct (decide (bit_set mem n mask prev value r)); [|done].
    by rewrite fmap_cons, <- app_assoc.
Qed.

End refine.

Lemma Filter_results host value prev st :
  m_results (FilterCheatSearchResults host value prev st)
  = refresh (deref host (ram_ptr (m_ram st))) (m_search_type_size st)
      <$> filter (bit_set (deref host (ram_ptr (m_ram st))) (m_search_type_size st)
                    (nth (Z.to_nat (m_match_operation st)) filters 0) prev value)
            (m_results st).
Proof.
  unfold FilterCheatSearchResults.
  destruct (filter_loop (deref host (ram_ptr (m_ram st))) (m_search_type_size st)
              (nth (Z.to_nat (m_match_operation st)) filters 0) prev
              value (m_results st) [] value) as (v' & ->); done.
Qed.

(** ** Traced computations *)

Section traced.

Context {A B : Type}.

Lemma bind_fst (m : Traced A) (k : A → Traced B) : (bind m k).1 = (k m.1).1.
Proof. unfold bind. destruct m as [x t]. simpl. by destruct (k x). Qed.

Lemma bind_snd (m : Traced A) (k : A → Traced B) :
  (bind m k).2 = m.2 ++ (k m.1).2.
Proof. unfold bind. destruct m as [x t]. simpl. by destruct (k x). Qed.

End traced.

(** ** What the refresh leaves alone *)

Lemma Update_results host st : m_results (Update host st).1 = m_results st.
Proof.
  unfold Update. cbn [set_m_updating set_m_match_table m_results].
  case_bool_decide; [done|].
  case_bool_decide; rewrite bind_fst; simpl; by destruct (m_refresh_enabled st).
Qed.

Lemma TimedUpdate_results host top bottom st :
  m_results (TimedUpdate host top bottom st).1 = m_results st.
Proof.
  unfold TimedUpdate. destruct (m_updating st); [done|].
  case_bool_decide; [done|].
  case_bool_decide; by rewrite bind_fst.
Qed.

Lemma refresh_address mem n (l : list Result) :
  address <$> (refresh mem n <$> l) = address <$> l.
Proof. rewrite <- list_fmap_compose. by apply list_fmap_ext. Qed.

Lemma filter_all {X} (P : X → Prop) `{∀ x, Decision (P x)} (l : list X) :
  (∀ x, P x) → filter P l = l.
Proof.
  intros HP. induction l as [|x l IH]; [done|].
  by rewrite filter_cons, decide_True, IH.
Qed.

(** ** Refine: subset, order, classification *)

(** C1. For every entry of the operation combo box (predicate), every
    search value and both settings of [prev] (value given or absent),
    one pass of [FilterCheatSearchResults] returns the candidates of a
    sub-list of the input list, each with its recorded value refreshed:
    the offsets that survive form a sub-sequence of the input offsets
    (same relative order) and there are no more of them than before. *)
Theorem Filter_subset_in_order host value prev st :
  let st' := FilterCheatSearchResults host value prev st in
  (address <$> m_results st') `sublist_of` (address <$> m_results st)
  ∧ (length (m_results st') ≤ length (m_results st))%nat
  ∧ ∃ kept, kept `sublist_of` m_results st
      ∧ m_results st'
        = refresh (deref host (ram_ptr (m_ram st))) (m_search_type_size st) <$> kept.
Proof.
  intros st'. subst st'. rewrite Filter_results.
  set (kept := filter _ (m_results st)).
  assert (Hsub : kept `sublist_of` m_results st) by apply sublist_filter.
  split_and!.
  - rewrite refresh_address. by apply fmap_sublist.
  - rewrite length_fmap. by apply sublist_length.
  - by exists kept.
Qed.

Lemma length_operand_bytes n v :
  0 ≤ n ≤ 4 → length (take (Z.to_nat n) (bytes_of_u32 v)) = Z.to_nat n.
Proof.
  intros Hn. rewrite length_take, length_bytes_of_u32. lia.
Qed.

(** The classification is the order of the big-endian numbers. *)
Lemma classify_order mem n r v :
  0 ≤ n ≤ 4 →
  let current := load mem (address r) n in
  let against := take (Z.to_nat n) (bytes_of_u32 v) in
  (classify mem n r v = LESS_THAN ↔ be_decode current < be_decode against)
  ∧ (classify mem n r v = EQUAL ↔ current = against)
  ∧ (classify mem n r v = GREATER_THAN ↔ be_decode against < be_decode current).
Proof.
  intros Hn current against. unfold classify, compare_at.
  fold current against.
  assert (Hlen : length current = length against).
  { unfold current, against. by rewrite length_load, length_operand_bytes. }
  destruct (cmp_mask_of_spec (memcmp current against)) as (-> & -> & ->).
  destruct (memcmp_be_order current against Hlen) as (Hlt & Heq & Hgt).
  split_and!; [done| |done].
  split.
  - by apply memcmp_zero_eq.
  - intros E. apply Heq. by rewrite E.
Qed.

(** C3. A pass keeps exactly the candidates whose classification bit is
    set in the mask of the chosen operation, in their order and with
    the recorded value refreshed; the classification is computed by
    [memcmp] over the element bytes and is Less/Equal/Greater exactly
    when the current bytes, read as a big-endian number of that width,
    are below/equal to/above the operand's; and in scenario B
    (candidates at 0 and 4 holding 5 and 9, memory unchanged, Equal
    with value 5) the pass leaves the candidate at offset 0, holding 5,
    and nothing else. *)
Theorem Filter_keeps_by_classification_bit :
  (∀ host value prev st,
     let mem := deref host (ram_ptr (m_ram st)) in
     let n := m_search_type_size st in
     let mask := nth (Z.to_nat (m_match_operation st)) filters 0 in
     m_results (FilterCheatSearchResults host value prev st)
     = refresh mem n
         <$> filter (λ r, Z.land (classify mem n r (operand prev value r)) mask ≠ 0)
               (m_results st))
  ∧ (∀ mem n r v,
       0 ≤ n ≤ 4 →
       let current := load mem (address r) n in
       let against := take (Z.to_nat n) (bytes_of_u32 v) in
       (classify mem n r v = LESS_THAN ↔ be_decode current < be_decode against)
       ∧ (classify mem n r v = EQUAL ↔ current = against)
       ∧ (classify mem n r v = GREATER_THAN ↔ be_decode against < be_decode current))
  ∧ (let st' := (NextSearch (machine scenario_B_memory) scenario_B).1 in
     m_results st' = [ {| address := 0; old_value := 0x05000000 |} ]
     ∧ (λ r, be_decode (take 4 (bytes_of_u32 (old_value r)))) <$> m_results st' = [5]).
Proof.
  split_and!.
  - intros host value prev st mem n mask. apply Filter_results.
  - apply classify_order.
  - by vm_compute.
Qed.

Lemma Filter_keeps_by_classification_bit_witness :
  let r := {| address := 4; old_value := 0 |} in
  classify (mem_of_list scenario_B_memory) 4 r 0x05000000 = GREATER_THAN
  ↔ be_decode (take 4 (bytes_of_u32 0x05000000))
    < be_decode (load (mem_of_list scenario_B_memory) 4 4).
Proof.
  intros r.
  destruct Filter_keeps_by_classification_bit as (_ & order & _).
  apply (order (mem_of_list scenario_B_memory) 4 r 0x05000000). lia.
Defined.

(** C6. With the first entry of the operation combo box (Unknown, mask
    Equal|GreaterThan|LessThan) a pass keeps every candidate, whatever
    the search value, whether it is given or absent, and whatever the
    memory holds now; only the recorded values are refreshed. *)
Theorem Unknown_keeps_every_candidate host value prev st :
  m_match_operation st = 0 →
  let st' := FilterCheatSearchResults host value prev st in
  m_results st'
  = refresh (deref host (ram_ptr (m_ram st))) (m_search_type_size st) <$> m_results st
  ∧ address <$> m_results st' = address <$> m_results st
  ∧ length (m_results st') = length (m_results st).
Proof.
  intros Hop st'. subst st'. rewrite Filter_results, Hop.
  rewrite filter_all.
  - by rewrite refresh_address, length_fmap.
  - intros r. unfold bit_set, classify.
    destruct (cmp_mask_of_cases
                (compare_at (deref host (ram_ptr (m_ram st))) (m_search_type_size st) r
                   (operand prev value r))) as [-> | [-> | ->]]; by compute.
Qed.

Lemma Unknown_keeps_every_candidate_witness :
  address <$> m_results (FilterCheatSearchResults (machine scenario_C_memory) 0 true scenario_C)
  = [0; 4].
Proof.
  exact (proj1 (proj2 (Unknown_keeps_every_candidate
                         (machine scenario_C_memory) 0 true scenario_C eq_refl))).
Defined.

(** ** Refine with no value: the candidate's own recorded value *)

Lemma NextSearch_blank host st :
  ram_ptr (m_ram st) ≠ None → m_match_value st = "" →
  NextSearch host st = Update host (FilterCheatSearchResults host 0 true st).
Proof.
  intros Hptr Hblank. unfold NextSearch.
  destruct (ram_ptr (m_ram st)); [|done].
  by rewrite Hblank.
Qed.

Lemma refresh_holds_current mem n r :
  0 ≤ n ≤ 4 →
  take (Z.to_nat n) (bytes_of_u32 (old_value (refresh mem n r)))
  = load mem (address r) n.
Proof.
  intros Hn. unfold refresh. cbn [old_value].
  rewrite <- (length_load mem (address r) n) at 1.
  apply memcpy_u32_prefix. rewrite length_load. lia.
Qed.

Lemma Filter_refreshes host value prev st r :
  0 ≤ m_search_type_size st ≤ 4 →
  r ∈ m_results (FilterCheatSearchResults host value prev st) →
  take (Z.to_nat (m_search_type_size st)) (bytes_of_u32 (old_value r))
  = load (deref host (ram_ptr (m_ram st))) (address r) (m_search_type_size st).
Proof.
  intros Hn. rewrite Filter_results.
  intros (r0 & -> & _)%list_elem_of_fmap.
  by rewrite refresh_holds_current.
Qed.

(** A pass is run whenever the region pointer is set and the value edit
    is blank or holds a value that parses. *)
Lemma NextSearch_runs_a_pass host st :
  ram_ptr (m_ram st) ≠ None →
  m_match_value st = "" ∨ value_parses host st = true →
  ∃ value prev,
    NextSearch host st
    = Update host (FilterCheatSearchResults host value prev st).
Proof.
  intros Hptr Hvalue. unfold NextSearch.
  destruct (ram_ptr (m_ram st)); [|done].
  case_bool_decide as Hblank; [by eexists _, _|].
  destruct Hvalue as [|Hparses]; [done|]. unfold value_parses in Hparses.
  destruct (m_match_length st =? 3).
  - destruct (toFloat host (m_match_value st)) as [value good].
    cbn [snd] in Hparses. subst good. by eexists _, _.
  - destruct (toULong (m_match_value st) _) as [value good].
    cbn [snd] in Hparses. subst good. by eexists _, _.
Qed.

(** C7. When the value edit is blank, [NextSearch] compares every
    candidate with its own recorded value: the survivors are the
    candidates whose classification against [old_value] has its bit in
    the mask.  And every candidate that a pass keeps -- a pass of the
    filter for any value and either setting of [prev], and so every
    pass that [NextSearch] runs, with a blank edit or with a value that
    parses -- records the bytes the pass has just read at its offset,
    so that they are the baseline of the next pass. *)
Theorem blank_value_compares_with_recorded_value :
  (∀ host st,
     ram_ptr (m_ram st) ≠ None →
     m_match_value st = "" →
     let mem := deref host (ram_ptr (m_ram st)) in
     let n := m_search_type_size st in
     let mask := nth (Z.to_nat (m_match_operation st)) filters 0 in
     m_results (NextSearch host st).1
     = refresh mem n
         <$> filter (λ r, Z.land (classify mem n r (old_value r)) mask ≠ 0)
               (m_results st))
  ∧ (∀ host value prev st r,
       0 ≤ m_search_type_size st ≤ 4 →
       r ∈ m_results (FilterCheatSearchResults host value prev st) →
       take (Z.to_nat (m_search_type_size st)) (bytes_of_u32 (old_value r))
       = load (deref host (ram_ptr (m_ram st))) (address r) (m_search_type_size st))
  ∧ (∀ host st r,
       0 ≤ m_search_type_size st ≤ 4 →
       ram_ptr (m_ram st) ≠ None →
       m_match_value st = "" ∨ value_parses host st = true →
       r ∈ m_results (NextSearch host st).1 →
       take (Z.to_nat (m_search_type_size st)) (bytes_of_u32 (old_value r))
       = load (deref host (ram_ptr (m_ram st))) (address r) (m_search_type_size st)).
Proof.
  split_and!.
  - intros host st Hptr Hblank mem n mask.
    rewrite NextSearch_blank, Update_results by done.
    apply Filter_results.
  - intros host value prev st r. apply Filter_refreshes.
  - intros host st r Hn Hptr Hvalue.
    destruct (NextSearch_runs_a_pass host st Hptr Hvalue) as (value & prev & ->).
    rewrite Update_results. by apply Filter_refreshes.
Qed.

Lemma blank_value_compares_with_recorded_value_witness :
  m_results (NextSearch (machine scenario_C_memory)
               (set_m_match_operation 1 scenario_C)).1
  = [ {| address := 0; old_value := 0x06000000 |} ]
  ∧ take 4 (bytes_of_u32 0x05000000) = load (mem_of_list scenario_B_memory) 0 4.
Proof.
  split.
  - refine (proj1 blank_value_compares_with_recorded_value
              (machine scenario_C_memory)
              (set_m_match_operation 1 scenario_C) _ _).
    + simpl. discriminate.
    + reflexivity.
  - refine (proj2 (proj2 blank_value_compares_with_recorded_value)
              (machine scenario_B_memory) scenario_B
              {| address := 0; old_value := 0x05000000 |} _ _ _ _).
    + simpl. lia.
    + simpl. discriminate.
    + right. reflexivity.
    + assert (E : m_results (NextSearch (machine scenario_B_memory) scenario_B).1
                  = [ {| address := 0; old_value := 0x05000000 |} ])
        by (vm_compute; reflexivity).
      rewrite E. left.
Defined.

(** ** The byte swap of the search value *)

Section swapping.

Local Arguments bytes_of_u32 : simpl never.
Local Arguments u32_of_bytes : simpl never.

Lemma GetTypeSize_cases st :
  GetTypeSize st = 1 ∨ GetTypeSize st = 2 ∨ GetTypeSize st = 4.
Proof.
  unfold GetTypeSize. destruct (m_match_length st) as [|p|p]; auto.
  do 3 (try destruct p as [p|p|]; auto).
Qed.

Lemma be_decode_snoc l b : be_decode (l ++ [b]) = 256 * be_decode l + u8 b.
Proof. unfold be_decode. by rewrite foldl_app. Qed.

(** Reading a byte string backwards as big-endian is reading it as the
    host does. *)
Lemma be_decode_reverse l : be_decode (reverse l) = u32_of_bytes l.
Proof.
  induction l as [|b l IH]; [done|].
  rewrite reverse_cons, be_decode_snoc, IH.
  unfold u32_of_bytes. simpl. lia.
Qed.

Lemma bytes_of_u16_of_bytes a b : bytes_of_u16 (u32_of_bytes [a; b]) = [a; b].
Proof.
  pose proof (u8_range a). pose proof (u8_range b).
  unfold bytes_of_u16, u32_of_bytes. simpl.
  repeat f_equal; apply byte_of_eq; rewrite Z.shiftr_div_pow2 by lia;
    simpl Z.pow; Z.div_mod_to_equations; lia.
Qed.

Lemma swap32_bytes v : bytes_of_u32 (swap32 v) = reverse (bytes_of_u32 v).
Proof.
  unfold swap32.
  destruct (bytes_of_u32_four v) as (b0 & b1 & b2 & b3 & ->).
  apply bytes_of_u32_of_bytes.
Qed.

Lemma swap16_in_place_bytes v b0 b1 b2 b3 :
  bytes_of_u32 v = [b0; b1; b2; b3] →
  swap16_in_place v = u32_of_bytes [b1; b0; b2; b3].
Proof.
  intros Hv. unfold swap16_in_place, swap16, memcpy_u32. rewrite Hv.
  cbn [take]. rewrite bytes_of_u16_of_bytes.
  change (reverse [b0; b1]) with [b1; b0].
  by rewrite bytes_of_u16_of_bytes.
Qed.

Lemma u32_of_bytes_two v :
  0 ≤ v < 2 ^ 16 →
  ∃ b0 b1, bytes_of_u32 v = [b0; b1; x00; x00] ∧ u32_of_bytes [b0; b1] = v.
Proof.
  intros Hv. exists (byte_of (Z.shiftr v (8 * 0))), (byte_of (Z.shiftr v (8 * 1))).
  split.
  - unfold bytes_of_u32. simpl. repeat f_equal; apply byte_of_eq;
      rewrite Z.shiftr_div_pow2 by lia; simpl Z.pow; change (u8 x00) with 0;
      Z.div_mod_to_equations; lia.
  - unfold u32_of_bytes. simpl. rewrite !u8_byte_of, !Z.shiftr_div_pow2 by lia.
    simpl Z.pow. Z.div_mod_to_equations. lia.
Qed.

(** Encoding followed by a big-endian read of the same width. *)
Lemma SwapValue_decode st v :
  0 ≤ v < 2 ^ (8 * GetTypeSize st) →
  be_decode (take (Z.to_nat (GetTypeSize st)) (bytes_of_u32 (SwapValue st v))) = v.
Proof.
  unfold SwapValue.
  destruct (GetTypeSize_cases st) as [-> | [-> | ->]]; intros Hv.
  - change (Z.to_nat 1) with 1%nat.
    unfold bytes_of_u32. simpl. unfold be_decode. simpl.
    rewrite u8_byte_of, Z.shiftr_div_pow2 by lia. simpl Z.pow.
    change (2 ^ (8 * 1)) with 256 in Hv. Z.div_mod_to_equations. lia.
  - change (Z.to_nat 2) with 2%nat. change (2 ^ (8 * 2)) with (2 ^ 16) in Hv.
    destruct (u32_of_bytes_two v Hv) as (b0 & b1 & Hb & Hd).
    rewrite (swap16_in_place_bytes v b0 b1 x00 x00 Hb), bytes_of_u32_of_bytes.
    cbn [take]. change [b1; b0] with (reverse [b0; b1]).
    by rewrite be_decode_reverse.
  - change (Z.to_nat 4) with 4%nat. change (2 ^ (8 * 4)) with (2 ^ 32) in Hv.
    rewrite swap32_bytes.
    rewrite take_ge by (by rewrite length_reverse, length_bytes_of_u32).
    rewrite be_decode_reverse, u32_of_bytes_of_u32.
    unfold wrap32. by apply Z.mod_small.
Qed.

(** Swapping twice gives the value back. *)
Lemma SwapValue_twice st v :
  0 ≤ v < 2 ^ 32 → SwapValue st (SwapValue st v) = v.
Proof.
  intros Hv. unfold SwapValue.
  assert (Hid : u32_of_bytes (bytes_of_u32 v) = v).
  { rewrite u32_of_bytes_of_u32. unfold wrap32. by apply Z.mod_small. }
  destruct (bytes_of_u32_four v) as (b0 & b1 & b2 & b3 & Hb).
  destruct (GetTypeSize_cases st) as [-> | [-> | ->]]; [done| |].
  - rewrite (swap16_in_place_bytes v b0 b1 b2 b3 Hb).
    rewrite (swap16_in_place_bytes _ b1 b0 b2 b3) by apply bytes_of_u32_of_bytes.
    by rewrite <- Hb.
  - unfold swap32 at 1. rewrite swap32_bytes, reverse_involutive. done.
Qed.

(** The value [NextSearch] hands to the filter is the parsed number,
    swapped as [SwapValue] does. *)
Lemma NextSearch_encodes host st v :
  ram_ptr (m_ram st) ≠ None →
  m_match_value st ≠ "" →
  m_match_length st ≠ 3 →
  let base := if m_match_decimal st then 10
              else if m_match_hexadecimal st then 16 else 8 in
  toULong (m_match_value st) base = (v, true) →
  NextSearch host st
  = Update host (FilterCheatSearchResults host (SwapValue st (wrap32 v)) false st).
Proof.
  intros Hptr Hblank Hfloat base Hparse. unfold NextSearch.
  destruct (ram_ptr (m_ram st)); [|done].
  rewrite bool_decide_eq_false_2 by done.
  destruct (Z.eqb_spec (m_match_length st) 3) as [|_]; [done|].
  fold base. rewrite Hparse. unfold SwapValue. simpl negb. cbv iota.
  done.
Qed.

End swapping.

(** C8. A number that fits the element width, encoded as [SwapValue]
    and [NextSearch] do (the byte swap for the width of [GetTypeSize])
    and then read as a big-endian number of that width from the first
    bytes of the encoded value, is the number again; swapping the
    encoded value once more also gives it back.  Decimal 100 at width 2
    is encoded as the bytes 00 64 and decodes to 100. *)
Theorem encode_then_decode_is_identity :
  (∀ st v,
     0 ≤ v < 2 ^ (8 * GetTypeSize st) →
     be_decode (take (Z.to_nat (GetTypeSize st)) (bytes_of_u32 (SwapValue st v))) = v
     ∧ SwapValue st (SwapValue st v) = v)
  ∧ (∀ host st v,
       ram_ptr (m_ram st) ≠ None →
       m_match_value st ≠ "" →
       m_match_length st ≠ 3 →
       toULong (m_match_value st)
         (if m_match_decimal st then 10
          else if m_match_hexadecimal st then 16 else 8) = (v, true) →
       NextSearch host st
       = Update host (FilterCheatSearchResults host (SwapValue st (wrap32 v)) false st))
  ∧ (let st := set_m_match_length 1 fresh in
     toULong "100" 10 = (100, true)
     ∧ take 2 (bytes_of_u32 (SwapValue st 100)) = [x00; byte_of 100]
     ∧ be_decode (take 2 (bytes_of_u32 (SwapValue st 100))) = 100).
Proof.
  split_and!.
  - intros st v Hv. split; [by apply SwapValue_decode|].
    apply SwapValue_twice.
    destruct (GetTypeSize_cases st) as [E | [E | E]]; rewrite E in Hv;
      simpl in Hv; lia.
  - intros host st v. apply NextSearch_encodes.
  - by vm_compute.
Qed.

Lemma encode_then_decode_is_identity_witness :
  be_decode (take 2 (bytes_of_u32 (SwapValue (set_m_match_length 1 fresh) 100))) = 100.
Proof.
  refine (proj1 (proj1 encode_then_decode_is_identity
                   (set_m_match_length 1 fresh) 100 _)).
  change (0 ≤ 100 < 65536). lia.
Defined.

(** ** The bounds of the scan *)

Section bounds.

Lemma wrap32_range z : 0 ≤ wrap32 z < 2 ^ 32.
Proof. unfold wrap32. apply Z.mod_pos_bound. lia. Qed.

Lemma wrap32_small z : 0 ≤ z < 2 ^ 32 → wrap32 z = z.
Proof. unfold wrap32. apply Z.mod_small. Qed.

(** Masking with [0xfffffff0] rounds down to a multiple of 16. *)
Lemma land_fffffff0 x : 0 ≤ x < 2 ^ 32 → Z.land x 0xfffffff0 = 16 * (x / 16).
Proof.
  intros Hx. apply Z.bits_inj'. intros i Hi.
  change 16 with (2 ^ 4) at 1.
  rewrite Z.mul_comm, <- Z.shiftl_mul_pow2 by lia.
  change 16 with (2 ^ 4).
  rewrite <- Z.shiftr_div_pow2 by lia.
  change 0xfffffff0 with (Z.shiftl (Z.ones 28) 4).
  rewrite Z.land_spec.
  destruct (Z.ltb_spec i 4) as [Hlt|Hge].
  - rewrite !Z.shiftl_spec_low by lia. apply andb_false_r.
  - rewrite !Z.shiftl_spec, Z.shiftr_spec by lia.
    replace (i - 4 + 4) with i by lia.
    rewrite Z.testbit_ones_nonneg by lia.
    destruct (Z.ltb_spec (i - 4) 28) as [|Hhigh]; [apply andb_true_r|].
    rewrite andb_false_r. symmetry.
    rewrite <- (Z.mod_small x (2 ^ 32)) by lia.
    apply Z.mod_pow2_bits_high. lia.
Qed.

Lemma masked_offset z :
  let c := Z.land (wrap32 z) 0xfffffff0 in
  c = 16 * (wrap32 z / 16) ∧ 0 ≤ c ≤ wrap32 z ∧ wrap32 z < c + 16 ∧ c mod 16 = 0.
Proof.
  intros c. subst c. pose proof (wrap32_range z) as Hr.
  rewrite land_fffffff0 by done.
  split; [done|]. Z.div_mod_to_equations. lia.
Qed.

(** The window is inside the region, and both ends are the defaults or
    multiples of 16. *)
Lemma search_range_bounds ram s e :
  let '(lo, hi) := search_range ram s e in
  0 ≤ lo ≤ hi ∧ hi ≤ wrap32 (ram_size ram)
  ∧ lo mod 16 = 0
  ∧ (hi = wrap32 (ram_size ram) ∨ hi mod 16 = 0).
Proof.
  unfold search_range.
  destruct (toUInt s 16) as [vs gs], (toUInt e 16) as [ve ge].
  pose proof (wrap32_range (ram_size ram)).
  pose proof (masked_offset (vs - ram_base ram)) as (_ & ? & _ & ?).
  pose proof (masked_offset (ve - ram_base ram)) as (_ & ? & _ & ?).
  destruct gs, ge; simpl negb; cbv iota; rewrite ?Z.gtb_ltb;
    repeat match goal with
           | |- context [?a <? ?b] => destruct (Z.ltb_spec a b)
           end; simpl andb; cbv iota; split_and!; auto; try lia.
Qed.

End bounds.

(** ** The scan loop *)

Section scanning.

Context (mem : Memory) (n hi : Z) (r0 : Result).
Hypothesis Hn : 0 < n ≤ 4.
Hypothesis Hhi : hi < 2 ^ 32.

Lemma same_tail_scanned a : same_tail n r0 (scanned mem n r0 a).
Proof.
  intros src Hsrc. unfold scanned. cbn [old_value].
  apply memcpy_u32_again; rewrite ?length_load; lia.
Qed.

Lemma seqZ_step a (k : nat) :
  (λ i, a + i * n) <$> seqZ 0 (Z.of_nat (S k))
  = a :: ((λ i, a + n + i * n) <$> seqZ 0 (Z.of_nat k)).
Proof.
  rewrite seqZ_cons by lia.
  replace (Z.pred (Z.of_nat (S k))) with (Z.of_nat k) by lia.
  change (Z.succ 0) with (1 + 0). rewrite <- fmap_add_seqZ.
  rewrite fmap_cons, <- list_fmap_compose. f_equal; [lia|].
  apply list_fmap_ext. intros _ i _. simpl. lia.
Qed.

(** With enough fuel the loop ends and has pushed one entry per
    offset, in increasing order. *)
Lemma scan_run (k : nat) : ∀ addr r acc,
  0 ≤ addr → addr + Z.of_nat k * n = hi → same_tail n r0 r →
  scan (S k) mem n hi addr r acc
  = Some (acc ++ (scanned mem n r0 <$> ((λ i, addr + i * n) <$> seqZ 0 (Z.of_nat k)))).
Proof.
  induction k as [|k IH]; intros addr r acc Haddr Hend Htail.
  - cbn [scan]. rewrite (proj2 (Z.eqb_eq addr hi)) by lia.
    by rewrite app_nil_r.
  - assert (Hne : addr ≠ hi) by nia.
    change (scan (S (S k)) mem n hi addr r acc)
      with (if addr =? hi then Some acc
            else let r' := {| address := addr;
                              old_value := memcpy_u32 (old_value r) (load mem addr n) |} in
                 scan (S k) mem n hi (wrap32 (addr + n)) r' (acc ++ [r'])).
    rewrite (proj2 (Z.eqb_neq addr hi)) by done. cbv zeta.
    rewrite Htail by apply length_load.
    fold (scanned mem n r0 addr).
    rewrite wrap32_small by nia.
    rewrite IH; [|lia|lia|apply same_tail_scanned].
    rewrite seqZ_step, fmap_cons, <- app_assoc. done.
Qed.

(** More fuel does not change a result. *)
Lemma scan_more_fuel fuel : ∀ fuel' addr r acc res,
  scan fuel mem n hi addr r acc = Some res → (fuel ≤ fuel')%nat →
  scan fuel' mem n hi addr r acc = Some res.
Proof.
  induction fuel as [|fuel IH]; intros fuel' addr r acc res; [done|].
  intros Hrun Hle. destruct fuel' as [|fuel']; [lia|].
  cbn [scan] in *. destruct (addr =? hi); [done|].
  apply IH; [done|lia].
Qed.

(** The loop ends only if the stride divides the distance. *)
Lemma scan_ends_aligned fuel : ∀ addr r acc res,
  (n | 2 ^ 32) →
  scan fuel mem n hi addr r acc = Some res → (n | hi - addr).
Proof.
  induction fuel as [|fuel IH]; intros addr r acc res Hdiv; [done|].
  cbn [scan]. destruct (Z.eqb_spec addr hi) as [->|Hne].
  - intros _. rewrite Z.sub_diag. apply Z.divide_0_r.
  - intros Hrun. apply IH in Hrun; [|done].
    destruct Hrun as [c Hc], Hdiv as [d Hd].
    unfold wrap32 in Hc. rewrite Hd in Hc.
    exists (c + 1 - d * ((addr + n) / (d * n))).
    pose proof (Z.div_mod (addr + n) (d * n)). nia.
Qed.

End scanning.

(** ** Initialize *)

Lemma Update_type_size host st :
  m_search_type_size (Update host st).1 = m_search_type_size st.
Proof.
  unfold Update. cbn [set_m_updating set_m_match_table m_results].
  case_bool_decide; [done|].
  case_bool_decide; rewrite bind_fst; simpl; by destruct (m_refresh_enabled st).
Qed.

Lemma Update_ram host st : m_ram (Update host st).1 = m_ram st.
Proof.
  unfold Update. cbn [set_m_updating set_m_match_table m_results].
  case_bool_decide; [done|].
  case_bool_decide; rewrite bind_fst; simpl; by destruct (m_refresh_enabled st).
Qed.

Lemma MemoryPtr_available host st mem :
  region_buffer host (m_ram_checked st) = Some mem →
  MemoryPtr host false st = set_m_ram (region_of host st) st.
Proof.
  intros Hbuf. unfold MemoryPtr, region_of. rewrite Hbuf.
  by destruct (m_ram_checked st).
Qed.

(** A click on Initialize while the game runs and the region is
    allocated: the candidates are what the scan loop returns for the
    window of [search_range], and the element size is fixed. *)
Lemma OnNewSearchClicked_scan fuel host r st mem :
  IsRunningAndStarted host = true →
  region_buffer host (m_ram_checked st) = Some mem →
  ∀ lo hi,
  search_range (region_of host st) (m_range_start st) (m_range_end st) = (lo, hi) →
  match OnNewSearchClicked fuel host r st with
  | Some (st', _) =>
      scan fuel mem (GetTypeSize st) hi lo r [] = Some (m_results st')
      ∧ m_search_type_size st' = GetTypeSize st
      ∧ m_ram st' = region_of host st
  | None => scan fuel mem (GetTypeSize st) hi lo r [] = None
  end.
Proof.
  intros Hrun Hbuf lo hi Hrange. unfold OnNewSearchClicked.
  rewrite Hrun, (MemoryPtr_available host st mem Hbuf). simpl negb. cbv iota.
  cbn [set_m_ram m_ram region_of ram_ptr set_m_setup_enabled
       set_m_search_type_size set_m_results set_m_scan_is_initialized
       set_m_match_next_enabled m_range_start m_range_end m_results
       m_search_type_size deref].
  change (GetTypeSize _) with (GetTypeSize st).
  fold (region_of host st). rewrite Hrange, Hbuf. cbn [default].
  change (id mem) with mem.
  destruct (scan fuel mem (GetTypeSize st) hi lo r []) as [results|]; [|done].
  destruct (Update host _) as [st' tr] eqn:E.
  apply (f_equal fst) in E. cbn [fst] in E. subst st'.
  by rewrite Update_results, Update_type_size, Update_ram.
Qed.

Section windows.

Context (n lo hi : Z).
Hypothesis Hn : 0 < n.

Lemma offsets_sorted_from (k : nat) : ∀ m,
  StronglySorted Z.lt ((λ i, lo + i * n) <$> seqZ m (Z.of_nat k)).
Proof.
  induction k as [|k IH]; intros m.
  - rewrite seqZ_nil by lia. constructor.
  - rewrite seqZ_cons by lia.
    replace (Z.pred (Z.of_nat (S k))) with (Z.of_nat k) by lia.
    rewrite fmap_cons. apply StronglySorted_cons. split; [|apply IH].
    apply Forall_fmap, Forall_seqZ. intros i Hi. simpl. nia.
Qed.

Lemma offsets_sorted : StronglySorted Z.lt (offsets n lo hi).
Proof.
  unfold offsets. destruct (Z.le_gt_cases 0 ((hi - lo) / n)) as [Hk|Hk].
  - rewrite <- (Z2Nat.id ((hi - lo) / n)) by done. apply offsets_sorted_from.
  - rewrite seqZ_nil by lia. constructor.
Qed.

Lemma offsets_NoDup : NoDup (offsets n lo hi).
Proof.
  unfold offsets. apply NoDup_fmap_2; [|apply NoDup_seqZ].
  intros i j Hij. nia.
Qed.

Lemma elem_of_offsets a :
  lo ≤ hi → (n | hi - lo) →
  a ∈ offsets n lo hi ↔ lo ≤ a < hi ∧ (n | a - lo).
Proof.
  intros Hle [q Hq]. unfold offsets.
  rewrite list_elem_of_fmap. setoid_rewrite elem_of_seqZ.
  rewrite Hq, Z.div_mul by lia. split.
  - intros (i & -> & Hi). split; [nia|]. exists i. lia.
  - intros (Ha & [i Hi]). exists i. split; [lia|nia].
Qed.

End windows.

Lemma scanned_address mem n r (l : list Z) : address <$> (scanned mem n r <$> l) = l.
Proof.
  rewrite <- list_fmap_compose. rewrite <- (list_fmap_id l) at 2.
  by apply list_fmap_ext.
Qed.

Lemma GetTypeSize_divides st :
  0 < GetTypeSize st ≤ 4 ∧ (GetTypeSize st | 16) ∧ (GetTypeSize st | 2 ^ 32).
Proof.
  destruct (GetTypeSize_cases st) as [-> | [-> | ->]]; split_and!; try lia.
  - by exists 16.
  - by exists (2 ^ 32).
  - by exists 8.
  - by exists (2 ^ 31).
  - by exists 4.
  - by exists (2 ^ 30).
Qed.

(** When the element size divides the region size, it divides every
    window that [search_range] can return. *)
Lemma window_aligned n size lo hi :
  (n | 16) → (n | 2 ^ 32) → (n | size) →
  lo mod 16 = 0 → (hi = wrap32 size ∨ hi mod 16 = 0) →
  (n | lo) ∧ (n | hi - lo).
Proof.
  intros H16 H32 Hsize Hlo Hhi.
  assert (Hnlo : (n | lo)).
  { etrans; [exact H16|]. by apply Z.mod_divide. }
  split; [done|]. apply Z.divide_sub_r; [|done].
  destruct Hhi as [-> | Hhi].
  - unfold wrap32. rewrite Z.mod_eq by lia.
    apply Z.divide_sub_r; [done|]. by apply Z.divide_mul_l.
  - etrans; [exact H16|]. by apply Z.mod_divide.
Qed.

(** Initialize returns: with enough fuel the scan ends, the candidates
    are the entries of the offsets of the window, and the element size
    and the region are recorded. *)
Lemma Initialize_runs host r st mem lo hi :
  IsRunningAndStarted host = true →
  region_buffer host (m_ram_checked st) = Some mem →
  search_range (region_of host st) (m_range_start st) (m_range_end st) = (lo, hi) →
  (GetTypeSize st | region_size host (m_ram_checked st)) →
  ∃ fuel st' trace,
    OnNewSearchClicked fuel host r st = Some (st', trace)
    ∧ m_results st' = scanned mem (GetTypeSize st) r <$> offsets (GetTypeSize st) lo hi
    ∧ m_search_type_size st' = GetTypeSize st
    ∧ m_ram st' = region_of host st.
Proof.
  intros Hrun Hbuf Hrange Hsize.
  pose proof (search_range_bounds (region_of host st) (m_range_start st) (m_range_end st)) as Hb.
  rewrite Hrange in Hb. destruct Hb as (Hlohi & Hhi & Hlo16 & Hhi16).
  destruct (GetTypeSize_divides st) as (Hn & H16 & H32).
  destruct (window_aligned (GetTypeSize st) _ lo hi H16 H32 Hsize Hlo16 Hhi16)
    as (_ & [q Hq]).
  pose proof (wrap32_range (ram_size (region_of host st))).
  set (k := Z.to_nat q).
  assert (Hk : Z.of_nat k = q) by (apply Z2Nat.id; nia).
  pose proof (scan_run mem (GetTypeSize st) hi r Hn ltac:(lia) k lo r []
                ltac:(lia) ltac:(lia) ltac:(by intros ??)) as Hscan.
  pose proof (OnNewSearchClicked_scan (S k) host r st mem Hrun Hbuf lo hi Hrange) as Hclick.
  destruct (OnNewSearchClicked (S k) host r st) as [[st' tr]|] eqn:E; [|congruence].
  destruct Hclick as (Hres & Hts & Hram).
  exists (S k), st', tr. split_and!; try done.
  rewrite Hscan in Hres. injection Hres as <-.
  unfold offsets. by rewrite Hq, Z.div_mul, Hk by lia.
Qed.

Lemma scanned_holds_current mem n r a :
  0 ≤ n ≤ 4 →
  take (Z.to_nat n) (bytes_of_u32 (old_value (scanned mem n r a))) = load mem a n.
Proof.
  intros Hn. unfold scanned. cbn [old_value].
  rewrite <- (length_load mem a n) at 1.
  apply memcpy_u32_prefix. rewrite length_load. lia.
Qed.

(** C4. A click on Initialize, while the game runs and the checked
    region is allocated, with a region size that the element size
    divides: the scan ends, and the candidate list has exactly one
    entry for every offset of the window that is a multiple of the
    element size, in increasing order, each entry recording in the
    first bytes of [old_value] the bytes the memory holds at its
    offset.  For a region of 16 bytes, 32-bit elements and empty range
    edits the offsets are 0, 4, 8, 12. *)
Theorem Initialize_one_entry_per_aligned_offset :
  (∀ host r st mem lo hi,
     IsRunningAndStarted host = true →
     region_buffer host (m_ram_checked st) = Some mem →
     search_range (region_of host st) (m_range_start st) (m_range_end st) = (lo, hi) →
     (GetTypeSize st | region_size host (m_ram_checked st)) →
     let n := GetTypeSize st in
     ∃ fuel st' trace,
       OnNewSearchClicked fuel host r st = Some (st', trace)
       ∧ address <$> m_results st' = offsets n lo hi
       ∧ NoDup (address <$> m_results st')
       ∧ (∀ a, a ∈ address <$> m_results st' ↔ lo ≤ a < hi ∧ a mod n = 0)
       ∧ (∀ c, c ∈ m_results st' →
               take (Z.to_nat n) (bytes_of_u32 (old_value c)) = load mem (address c) n))
  ∧ (∀ r, ∃ fuel st' trace,
       OnNewSearchClicked fuel (machine scenario_A_memory) r scenario_A = Some (st', trace)
       ∧ address <$> m_results st' = [0; 4; 8; 12]).
Proof.
  split.
  - intros host r st mem lo hi Hrun Hbuf Hrange Hsize n.
    destruct (Initialize_runs host r st mem lo hi Hrun Hbuf Hrange Hsize)
      as (fuel & st' & tr & Hclick & Hres & _).
    exists fuel, st', tr. fold n in Hres. rewrite Hres, scanned_address.
    pose proof (search_range_bounds (region_of host st) (m_range_start st) (m_range_end st)) as Hb.
    rewrite Hrange in Hb. destruct Hb as (Hlohi & Hhi & Hlo16 & Hhi16).
    destruct (GetTypeSize_divides st) as (Hn & H16 & H32). fold n in Hn, H16, H32.
    destruct (window_aligned n _ lo hi H16 H32 Hsize Hlo16 Hhi16) as (Hnlo & Hnw).
    split_and!; [done|done|by apply offsets_NoDup; lia| |].
    + intros a. rewrite elem_of_offsets by (done || lia).
      rewrite Z.mod_divide by lia. split; intros [Ha Hd]; (split; [done|]).
      * replace a with (a - lo + lo) by lia. by apply Z.divide_add_r.
      * by apply Z.divide_sub_r.
    + intros c (a & -> & _)%list_elem_of_fmap.
      rewrite scanned_holds_current by lia. done.
  - intros r.
    destruct (Initialize_runs (machine scenario_A_memory) r scenario_A
                (mem_of_list scenario_A_memory) 0 16 eq_refl eq_refl eq_refl)
      as (fuel & st' & tr & Hclick & Hres & _).
    { by exists 4. }
    exists fuel, st', tr. split; [done|].
    by rewrite Hres, scanned_address.
Qed.

Lemma Initialize_one_entry_per_aligned_offset_witness :
  ∃ fuel st' trace,
    OnNewSearchClicked fuel (machine scenario_A_memory) inhabitant scenario_A
    = Some (st', trace)
    ∧ address <$> m_results st' = [0; 4; 8; 12].
Proof.
  destruct (proj1 Initialize_one_entry_per_aligned_offset
              (machine scenario_A_memory) inhabitant scenario_A
              (mem_of_list scenario_A_memory) 0 16
              eq_refl eq_refl eq_refl (ex_intro _ 4 eq_refl))
    as (fuel & st' & tr & Hclick & Hres & _).
  exists fuel, st', tr. split; [exact Hclick | exact Hres].
Defined.

(** ** Bound normalization *)

Lemma search_range_cases ram s e :
  0 ≤ ram_size ram < 2 ^ 32 →
  let '(lo, hi) := search_range ram s e in
  (malformed s ∨ inverted ram s e → lo = 0)
  ∧ (malformed e ∨ inverted ram s e → hi = ram_size ram)
  ∧ (ram_size ram mod 16 = 0 →
     (outside ram s → lo = 0) ∧ (outside ram e → hi = ram_size ram))
  ∧ (lo ≠ 0 → (toUInt s 16).2 = true ∧ lo = 16 * (offset_of ram s / 16)).
Proof.
  intros Hsize. unfold search_range, malformed, outside, inverted, offset_of.
  destruct (toUInt s 16) as [vs gs], (toUInt e 16) as [ve ge]. cbn [fst snd].
  rewrite (wrap32_small (ram_size ram)) by done.
  pose proof (masked_offset (vs - ram_base ram)) as (Es & ? & ? & ?).
  pose proof (masked_offset (ve - ram_base ram)) as (Ee & ? & ? & ?).
  pose proof (wrap32_range (vs - ram_base ram)).
  pose proof (wrap32_range (ve - ram_base ram)).
  rewrite <- Es.
  set (cs := Z.land (wrap32 (vs - ram_base ram)) 0xfffffff0) in *.
  set (ce := Z.land (wrap32 (ve - ram_base ram)) 0xfffffff0) in *.
  set (os := wrap32 (vs - ram_base ram)) in *.
  set (oe := wrap32 (ve - ram_base ram)) in *.
  assert (Hmono : oe ≤ os → ce ≤ cs).
  { intros Hle. rewrite Es, Ee. apply Z.mul_le_mono_nonneg_l; [lia|].
    by apply Z.div_le_mono. }
  assert (Hout_s : ram_size ram mod 16 = 0 → ram_size ram ≤ os → ram_size ram ≤ cs).
  { intros H16 Hle. rewrite Es. Z.div_mod_to_equations. lia. }
  assert (Hout_e : ram_size ram mod 16 = 0 → ram_size ram ≤ oe → ram_size ram ≤ ce).
  { intros H16 Hle. rewrite Ee. Z.div_mod_to_equations. lia. }
  destruct gs, ge; simpl negb; cbv iota; rewrite ?Z.gtb_ltb;
    repeat match goal with
           | |- context [?a <? ?b] => destruct (Z.ltb_spec a b)
           end; simpl andb; cbv iota; split_and!; try done; try lia;
    try (intros [? | (? & ? & ?)]; (done || lia));
    try (intros H16; split; intros [? ?]; (done || lia)).
Qed.

Lemma MemoryPtr_ram_of_texts host st s e :
  m_ram (MemoryPtr host false (set_m_range_start s (set_m_range_end e st)))
  = m_ram (MemoryPtr host false st).
Proof.
  unfold MemoryPtr. cbn [set_m_range_start set_m_range_end m_ram_checked].
  by destruct (m_ram_checked st), (region_buffer host _).
Qed.

(** The candidates a click on Initialize leaves depend on the two range
    edits through [search_range] only. *)
Lemma OnNewSearchClicked_candidates fuel host r st :
  (λ x, m_results x.1) <$> OnNewSearchClicked fuel host r st
  = if negb (IsRunningAndStarted host) then Some (m_results st)
    else
      let ram := m_ram (MemoryPtr host false st) in
      match ram_ptr ram with
      | None => Some (m_results st)
      | Some _ =>
          scan fuel (deref host (ram_ptr ram)) (GetTypeSize st)
            (search_range ram (m_range_start st) (m_range_end st)).2
            (search_range ram (m_range_start st) (m_range_end st)).1 r []
      end.
Proof.
  unfold OnNewSearchClicked.
  destruct (IsRunningAndStarted host); simpl negb; cbv iota; [|done].
  assert (Hkeep : m_results (MemoryPtr host false st) = m_results st
                  ∧ m_range_start (MemoryPtr host false st) = m_range_start st
                  ∧ m_range_end (MemoryPtr host false st) = m_range_end st
                  ∧ GetTypeSize (MemoryPtr host false st) = GetTypeSize st).
  { unfold MemoryPtr. by destruct (m_ram_checked st), (region_buffer host _). }
  destruct Hkeep as (Hres & Hs & He & Hts).
  destruct (ram_ptr (m_ram (MemoryPtr host false st))) as [k|] eqn:Hptr; [|by rewrite <- Hres].
  cbn [set_m_setup_enabled set_m_search_type_size set_m_results
       set_m_scan_is_initialized set_m_match_next_enabled m_ram m_range_start
       m_range_end m_results m_search_type_size].
  change (GetTypeSize (set_m_setup_enabled false (MemoryPtr host false st)))
    with (GetTypeSize (MemoryPtr host false st)).
  rewrite Hs, He, Hts, Hptr.
  destruct (search_range _ _ _) as [lo hi]. cbn [fst snd].
  destruct (scan _ _ _ _ _ _ _) as [results|]; [|done].
  simpl. by rewrite Update_results.
Qed.

(** C5. The window of the scan always lies inside the region.  A start
    edit that does not parse, or is not below the end edit, leaves the
    start at 0, and likewise the end at the region size; so does, for a
    region whose size is a multiple of 16, an edit that denotes an
    offset outside the region.  A start that is accepted is the offset
    of the edit rounded down to a multiple of 16.  And a click on
    Initialize with both edits outside the region leaves the same
    candidates as a click with both edits empty. *)
Theorem range_edits_are_clamped :
  (∀ ram s e,
     0 ≤ ram_size ram < 2 ^ 32 →
     let '(lo, hi) := search_range ram s e in
     (0 ≤ lo ∧ lo ≤ hi ∧ hi ≤ ram_size ram)
     ∧ (malformed s ∨ inverted ram s e → lo = 0)
     ∧ (malformed e ∨ inverted ram s e → hi = ram_size ram)
     ∧ (ram_size ram mod 16 = 0 →
        (outside ram s → lo = 0) ∧ (outside ram e → hi = ram_size ram))
     ∧ (lo ≠ 0 →
        (toUInt s 16).2 = true
        ∧ lo = 16 * (offset_of ram s / 16)
        ∧ lo mod 16 = 0 ∧ lo ≤ offset_of ram s < lo + 16))
  ∧ (∀ fuel host r st,
       let ram := m_ram (MemoryPtr host false st) in
       0 ≤ ram_size ram < 2 ^ 32 →
       ram_size ram mod 16 = 0 →
       outside ram (m_range_start st) →
       outside ram (m_range_end st) →
       (λ x, m_results x.1) <$> OnNewSearchClicked fuel host r st
       = (λ x, m_results x.1)
           <$> OnNewSearchClicked fuel host r
                 (set_m_range_start "" (set_m_range_end "" st))).
Proof.
  split.
  - intros ram s e Hsize.
    pose proof (search_range_bounds ram s e) as Hb.
    pose proof (search_range_cases ram s e Hsize) as Hc.
    destruct (search_range ram s e) as [lo hi].
    destruct Hb as (Hlohi & Hhi & _ & _), Hc as (Hlo & Hhi' & Hout & Hacc).
    rewrite wrap32_small in Hhi by done.
    split_and!; try done; try lia.
    intros Hne. destruct (Hacc Hne) as (Hgood & Hlo').
    split_and!; try done; rewrite Hlo'; Z.div_mod_to_equations; lia.
  - intros fuel host r st ram Hsize H16 Hs He.
    rewrite !OnNewSearchClicked_candidates, MemoryPtr_ram_of_texts.
    fold ram.
    cbn [set_m_range_start set_m_range_end m_results m_range_start m_range_end].
    change (GetTypeSize (set_m_range_start _ _)) with (GetTypeSize st).
    pose proof (search_range_cases ram (m_range_start st) (m_range_end st) Hsize) as Hc.
    pose proof (search_range_cases ram "" "" Hsize) as Hd.
    destruct (search_range ram (m_range_start st) (m_range_end st)) as [lo hi].
    destruct (search_range ram "" "") as [lo' hi'].
    destruct Hc as (_ & _ & Hout & _), Hd as (Hlo' & Hhi' & _).
    destruct (Hout H16) as [Hlo Hhi].
    rewrite Hlo, Hhi, Hlo', Hhi' by (done || by left).
    done.
Qed.

Lemma range_edits_are_clamped_witness :
  (search_range main_ram "80000018" "80000100").1
  = 16 * (offset_of main_ram "80000018" / 16).
Proof.
  pose proof (proj1 range_edits_are_clamped main_ram "80000018" "80000100") as H.
  assert (E : search_range main_ram "80000018" "80000100" = (16, 256)) by reflexivity.
  rewrite E in *. cbn [fst].
  destruct H as (_ & _ & _ & _ & H).
  - simpl. lia.
  - apply H. lia.
Defined.

(** ** The invariant of the candidate list *)

Lemma candidates_ok_nil n lo hi : candidates_ok n lo hi [].
Proof. split; constructor. Qed.

Lemma candidates_ok_refine mem n' n lo hi (P : Result → Prop)
    `{∀ c, Decision (P c)} (l : list Result) :
  candidates_ok n lo hi l →
  candidates_ok n lo hi (refresh mem n' <$> filter P l).
Proof.
  intros [Hall Hsorted]. split.
  - apply Forall_fmap. apply Forall_forall. intros c Hc.
    apply list_elem_of_filter in Hc as [_ Hc]. simpl.
    by apply (proj1 (Forall_forall _ _) Hall).
  - rewrite refresh_address. clear Hall.
    induction l as [|c l IH]; [done|].
    rewrite fmap_cons in Hsorted. apply StronglySorted_cons in Hsorted as [Hc Hl].
    rewrite filter_cons. destruct (decide (P c)); [|by apply IH].
    rewrite fmap_cons. apply StronglySorted_cons. split; [|by apply IH].
    apply Forall_forall. intros a (c' & -> & Hc')%list_elem_of_fmap.
    apply list_elem_of_filter in Hc' as [_ Hc'].
    apply (proj1 (Forall_forall _ _) Hc). by apply list_elem_of_fmap_2.
Qed.

Lemma candidates_ok_scanned mem n r lo hi :
  0 < n → lo ≤ hi → (n | lo) → (n | hi - lo) →
  candidates_ok n lo hi (scanned mem n r <$> offsets n lo hi).
Proof.
  intros Hn Hle Hlo Hw. split.
  - apply Forall_fmap, Forall_forall. intros a Ha. simpl.
    apply elem_of_offsets in Ha as [Ha Hd]; [|done..].
    split; [|done]. apply Z.mod_divide; [lia|].
    replace a with (a - lo + lo) by lia. by apply Z.divide_add_r.
  - rewrite scanned_address. by apply offsets_sorted.
Qed.

Lemma NextSearch_cases host st :
  NextSearch host st = ret (set_m_result_label "Memory Not Ready" st)
  ∨ NextSearch host st = ret (set_m_result_label "Incorrect search value." st)
  ∨ ∃ value prev,
      NextSearch host st = Update host (FilterCheatSearchResults host value prev st).
Proof.
  unfold NextSearch. destruct (ram_ptr (m_ram st)); [|by left].
  right. case_bool_decide.
  - right. by eexists _, _.
  - destruct (if m_match_length st =? 3 then _ else _) as [value [|]].
    + right. by eexists _, _.
    + by left.
Qed.

Lemma Filter_type_size host value prev st :
  m_search_type_size (FilterCheatSearchResults host value prev st)
  = m_search_type_size st.
Proof. unfold FilterCheatSearchResults. by destruct (foldl _ _ _). Qed.

Lemma NextSearch_type_size host st :
  m_search_type_size (NextSearch host st).1 = m_search_type_size st.
Proof.
  destruct (NextSearch_cases host st) as [-> | [-> | (v & p & ->)]]; try done.
  by rewrite Update_type_size, Filter_type_size.
Qed.

Lemma OnNewSearchClicked_armed fuel host r st st' tr :
  OnNewSearchClicked fuel host r st = Some (st', tr) →
  IsRunningAndStarted host = true →
  ram_ptr (m_ram (MemoryPtr host false st)) ≠ None →
  m_search_type_size st' = GetTypeSize st
  ∧ m_ram st' = m_ram (MemoryPtr host false st).
Proof.
  unfold OnNewSearchClicked. intros Hclick Hrun Hptr. rewrite Hrun in Hclick.
  simpl negb in Hclick. cbv iota in Hclick.
  assert (Hts : GetTypeSize (MemoryPtr host false st) = GetTypeSize st).
  { unfold MemoryPtr. by destruct (m_ram_checked st), (region_buffer host _). }
  destruct (ram_ptr (m_ram (MemoryPtr host false st))) as [k|]; [|done].
  destruct (search_range _ _ _) as [lo hi].
  destruct (scan _ _ _ _ _ _ _) as [results|]; [|done].
  injection Hclick as Hclick. apply (f_equal fst) in Hclick. cbn [fst] in Hclick.
  subst st'. rewrite Update_type_size, Update_ram. by rewrite <- Hts.
Qed.

(** Whatever the fuel, a scan that ends has produced the entries of
    the offsets of its window. *)
Lemma scan_result fuel mem n lo hi r results :
  0 < n ≤ 4 → (n | 2 ^ 32) → 0 ≤ lo ≤ hi → hi < 2 ^ 32 →
  scan fuel mem n hi lo r [] = Some results →
  (n | hi - lo) ∧ results = scanned mem n r <$> offsets n lo hi.
Proof.
  intros Hn H32 Hlo Hhi Hscan.
  pose proof (scan_ends_aligned mem n hi fuel lo r [] results H32 Hscan) as Hd.
  split; [done|]. destruct Hd as [q Hq].
  set (k := Z.to_nat q).
  assert (Hk : Z.of_nat k = q) by (apply Z2Nat.id; nia).
  pose proof (scan_run mem n hi r Hn Hhi k lo r [] ltac:(lia) ltac:(lia)
                ltac:(by intros ??)) as Hrun.
  apply (scan_more_fuel mem n hi fuel (fuel `max` S k)) in Hscan; [|lia].
  apply (scan_more_fuel mem n hi (S k) (fuel `max` S k)) in Hrun; [|lia].
  rewrite Hscan in Hrun. injection Hrun as ->.
  unfold offsets. by rewrite Hq, Z.div_mul, Hk by lia.
Qed.

Lemma TimedUpdate_type_size host top bottom st :
  m_search_type_size (TimedUpdate host top bottom st).1 = m_search_type_size st.
Proof.
  unfold TimedUpdate. destruct (m_updating st); [done|].
  case_bool_decide; [done|].
  case_bool_decide; by rewrite bind_fst.
Qed.

Lemma MemoryPtr_candidates host update st :
  m_results (MemoryPtr host update st) = m_results st
  ∧ m_search_type_size (MemoryPtr host update st) = m_search_type_size st.
Proof.
  unfold MemoryPtr.
  by destruct update, (m_ram_checked st), (region_buffer host _).
Qed.

Lemma OnNewSearchClicked_early fuel host r st st' tr :
  OnNewSearchClicked fuel host r st = Some (st', tr) →
  IsRunningAndStarted host = false
  ∨ ram_ptr (m_ram (MemoryPtr host false st)) = None →
  m_results st' = m_results st
  ∧ m_search_type_size st' = m_search_type_size st.
Proof.
  unfold OnNewSearchClicked. intros Hclick Hearly.
  destruct (IsRunningAndStarted host); simpl negb in Hclick; cbv iota in Hclick.
  - destruct Hearly as [|Hptr]; [done|]. rewrite Hptr in Hclick.
    injection Hclick as <- _. apply MemoryPtr_candidates.
  - by injection Hclick as <- _.
Qed.

Lemma Initialize_establishes fuel host r st st' tr :
  OnNewSearchClicked fuel host r st = Some (st', tr) →
  IsRunningAndStarted host = true →
  ram_ptr (m_ram (MemoryPtr host false st)) ≠ None →
  let ram := m_ram (MemoryPtr host false st) in
  let '(lo, hi) := search_range ram (m_range_start st) (m_range_end st) in
  m_ram st' = ram
  ∧ m_search_type_size st' = GetTypeSize st
  ∧ 0 ≤ lo ∧ lo ≤ hi ∧ hi ≤ wrap32 (ram_size ram)
  ∧ Inv lo hi st'.
Proof.
  intros Hclick Hrun Hptr ram.
  destruct (OnNewSearchClicked_armed fuel host r st st' tr Hclick Hrun Hptr)
    as (Hts & Hram).
  pose proof (OnNewSearchClicked_candidates fuel host r st) as Hres.
  rewrite Hclick, Hrun in Hres. simpl in Hres. fold ram in Hres, Hptr.
  destruct (ram_ptr ram) as [k|] eqn:Ek; [|done].
  pose proof (search_range_bounds ram (m_range_start st) (m_range_end st)) as Hb.
  destruct (search_range ram (m_range_start st) (m_range_end st)) as [lo hi].
  cbn [fst snd] in Hres. destruct Hb as (Hlohi & Hhi & Hlo16 & _).
  destruct (GetTypeSize_divides st) as (Hn & H16 & H32).
  pose proof (wrap32_range (ram_size ram)).
  symmetry in Hres.
  apply scan_result in Hres as (Hw & Hres); [|done|done|lia|lia].
  split_and!; try done; try lia.
  unfold Inv. rewrite Hts, Hres.
  apply candidates_ok_scanned; [lia|lia| |done].
  etrans; [exact H16|]. by apply Z.mod_divide.
Qed.

(** C10. The invariant of the candidate list -- every offset a multiple
    of the element size fixed by Initialize, the offsets strictly
    increasing, every offset inside the window computed by Initialize,
    itself inside the region -- is established by Initialize (which
    returns when the element size divides the region size, and leaves
    the candidates alone when it gives up early), preserved by a refine
    pass, re-established by Reset, which empties the list, and left
    alone by the refresh operations and by the choice of the region. *)
Theorem candidate_invariant :
  (∀ fuel host r st st' tr,
     OnNewSearchClicked fuel host r st = Some (st', tr) →
     IsRunningAndStarted host = true →
     ram_ptr (m_ram (MemoryPtr host false st)) ≠ None →
     let ram := m_ram (MemoryPtr host false st) in
     let '(lo, hi) := search_range ram (m_range_start st) (m_range_end st) in
     m_ram st' = ram
     ∧ m_search_type_size st' = GetTypeSize st
     ∧ 0 ≤ lo ∧ lo ≤ hi ∧ hi ≤ wrap32 (ram_size ram)
     ∧ Inv lo hi st')
  ∧ (∀ host r st mem,
       IsRunningAndStarted host = true →
       region_buffer host (m_ram_checked st) = Some mem →
       (GetTypeSize st | region_size host (m_ram_checked st)) →
       ∃ fuel st' tr, OnNewSearchClicked fuel host r st = Some (st', tr))
  ∧ (∀ fuel host r st st' tr,
       OnNewSearchClicked fuel host r st = Some (st', tr) →
       IsRunningAndStarted host = false
       ∨ ram_ptr (m_ram (MemoryPtr host false st)) = None →
       m_results st' = m_results st
       ∧ m_search_type_size st' = m_search_type_size st)
  ∧ (∀ host value prev st lo hi,
       Inv lo hi st → Inv lo hi (FilterCheatSearchResults host value prev st))
  ∧ (∀ host st lo hi, Inv lo hi st → Inv lo hi (NextSearch host st).1)
  ∧ (∀ host st lo hi,
       m_results (Reset host st).1 = [] ∧ Inv lo hi (Reset host st).1)
  ∧ (∀ host st lo hi, Inv lo hi st → Inv lo hi (Update host st).1)
  ∧ (∀ host top bottom st lo hi,
       Inv lo hi st → Inv lo hi (TimedUpdate host top bottom st).1)
  ∧ (∀ host update st lo hi, Inv lo hi st → Inv lo hi (MemoryPtr host update st)).
Proof.
  assert (Hfilter : ∀ host value prev st lo hi,
            Inv lo hi st → Inv lo hi (FilterCheatSearchResults host value prev st)).
  { intros host value prev st lo hi HI. unfold Inv in *.
    rewrite Filter_type_size, Filter_results. by apply candidates_ok_refine. }
  assert (Hupdate : ∀ host st lo hi, Inv lo hi st → Inv lo hi (Update host st).1).
  { intros host st lo hi HI. unfold Inv in *.
    by rewrite Update_type_size, Update_results. }
  split_and!.
  - apply Initialize_establishes.
  - intros host r st mem Hrun Hbuf Hsize.
    destruct (search_range (region_of host st) (m_range_start st) (m_range_end st))
      as [lo hi] eqn:Hrange.
    destruct (Initialize_runs host r st mem lo hi Hrun Hbuf Hrange Hsize)
      as (fuel & st' & tr & Hclick & _).
    by exists fuel, st', tr.
  - apply OnNewSearchClicked_early.
  - exact Hfilter.
  - intros host st lo hi HI.
    destruct (NextSearch_cases host st) as [-> | [-> | (v & p & ->)]]; try done.
    by apply Hupdate, Hfilter.
  - intros host st lo hi. unfold Reset, Inv.
    rewrite Update_results, Update_type_size. cbn [m_results set_m_results
      set_m_match_table set_m_match_next_enabled set_m_setup_enabled
      set_m_updating set_m_result_label].
    split; [done|apply candidates_ok_nil].
  - exact Hupdate.
  - intros host top bottom st lo hi HI. unfold Inv in *.
    by rewrite TimedUpdate_type_size, TimedUpdate_results.
  - intros host update st lo hi HI. unfold Inv in *.
    destruct (MemoryPtr_candidates host update st) as [-> ->]. done.
Qed.

Lemma candidate_invariant_witness :
  Inv 0 8 (FilterCheatSearchResults (machine scenario_B_memory) 0x05000000 false scenario_B).
Proof.
  apply (proj1 (proj2 (proj2 (proj2 candidate_invariant)))).
  unfold Inv, candidates_ok. simpl.
  split; repeat constructor; simpl; lia.
Defined.

(** ** The refresh of the table *)

Section loops.

Context {A S : Type} (body : S → A → Traced S) (P : S → Prop).

Lemma for_each_invariant (l : list A) : ∀ s,
  P s → (∀ s x, x ∈ l → P s → P (body s x).1) → P (for_each body s l).1.
Proof.
  induction l as [|x l IH]; intros s Hs Hbody; [done|].
  cbn [for_each]. rewrite bind_fst. apply IH.
  - apply Hbody; [left|done].
  - intros s' y Hy. apply Hbody. by right.
Qed.

End loops.

Lemma setItem_rowCount row column item t :
  rowCount (setItem row column item t) = rowCount t.
Proof. unfold setItem. by case_bool_decide. Qed.

Lemma setItem_rows (bound : Z) row column item t :
  rowCount t ≤ bound ∨ row < bound →
  (∀ r c x, cells t !! (r, c) = Some x → r < bound) →
  ∀ r c x, cells (setItem row column item t) !! (r, c) = Some x → r < bound.
Proof.
  intros Hcount Hrows r c x. unfold setItem. case_bool_decide as Hin; [|apply Hrows].
  cbn [cells]. destruct (decide ((row, column) = (r, c))) as [E|E].
  - injection E as <- <-. intros _. lia.
  - rewrite lookup_insert_ne by done. apply Hrows.
Qed.

(** A row of [Update] leaves the row count and writes inside it. *)
Lemma Update_row_table host st (bound : Z) t i :
  rowCount t ≤ bound ∨ i < bound →
  (∀ r c x, cells t !! (r, c) = Some x → r < bound) →
  rowCount (Update_row host st t i).1 = rowCount t
  ∧ ∀ r c x, cells (Update_row host st t i).1 !! (r, c) = Some x → r < bound.
Proof.
  intros Hcount Hrows. unfold Update_row.
  rewrite !bind_fst. cbn [ret fst]. rewrite !setItem_rowCount.
  split; [done|].
  repeat (apply setItem_rows; [by rewrite ?setItem_rowCount|]). done.
Qed.

Lemma TimedUpdate_row_table host st (bound : Z) t i :
  rowCount t ≤ bound ∨ i < bound →
  (∀ r c x, cells t !! (r, c) = Some x → r < bound) →
  rowCount (TimedUpdate_row host st t i).1 = rowCount t
  ∧ ∀ r c x, cells (TimedUpdate_row host st t i).1 !! (r, c) = Some x → r < bound.
Proof.
  intros Hcount Hrows. unfold TimedUpdate_row.
  rewrite !bind_fst. cbn [ret fst]. rewrite !setItem_rowCount.
  split; [done|].
  repeat (apply setItem_rows; [by rewrite ?setItem_rowCount|]). done.
Qed.

Lemma many_nonempty (l : list Result) :
  Z.of_nat (length l) > MAX_RESULTS → l ≠ [].
Proof. intros Hsize ->. unfold MAX_RESULTS in Hsize. simpl in Hsize. lia. Qed.

(** What [Update] leaves when there are more candidates than
    [MAX_RESULTS]: the label counts the matches, the table has a row
    per candidate, and no row from [MAX_RESULTS] on holds an item. *)
Lemma Update_when_many host st :
  let size := Z.of_nat (length (m_results st)) in
  size > MAX_RESULTS →
  let st' := (Update host st).1 in
  m_result_label st' = matches size
  ∧ rowCount (m_match_table st') = size
  ∧ ∀ r c x, cells (m_match_table st') !! (r, c) = Some x → r < MAX_RESULTS.
Proof.
  intros size Hsize st'. subst st'. unfold Update.
  cbn [set_m_updating set_m_match_table m_results m_refresh_enabled].
  rewrite bool_decide_eq_false_2 by by apply many_nonempty.
  destruct (m_refresh_enabled st);
    cbn [set_m_timer_active m_results m_match_table set_m_result_label
         set_m_match_table];
    fold size; rewrite bool_decide_eq_true_2 by done;
    cbn [set_m_timer_active m_results m_match_table set_m_result_label
         set_m_match_table];
    rewrite bind_fst; cbn [ret fst m_result_label set_m_updating
                           set_m_match_table m_match_table];
    (split; [done|]);
    match goal with
    | |- context [for_each ?body ?t0 ?l] =>
        apply (for_each_invariant body
                 (λ t, rowCount t = size
                       ∧ ∀ r c x, cells t !! (r, c) = Some x → r < MAX_RESULTS))
    end.
  all: try (cbn; split; [done|]; intros r c x;
            rewrite !map_filter_empty, lookup_empty; done).
  all: intros t i Hi [Hc Hr]; apply elem_of_seqZ in Hi;
    match goal with
    | |- context [Update_row ?h ?s ?t' ?i'] =>
        destruct (Update_row_table h s MAX_RESULTS t' i') as [E Hr'];
          [right; lia|done|]
    end;
    (split; [by rewrite E|done]).
Qed.

(** The same situation in [TimedUpdate]: the label says that there are
    too many matches, with their number, and the table is cut at
    [MAX_RESULTS] rows. *)
Lemma TimedUpdate_when_many host top bottom st :
  let size := Z.of_nat (length (m_results st)) in
  m_updating st = false →
  size > MAX_RESULTS →
  let st' := (TimedUpdate host top bottom st).1 in
  m_result_label st' = too_many_matches size
  ∧ rowCount (m_match_table st') = MAX_RESULTS
  ∧ ∀ r c x, cells (m_match_table st') !! (r, c) = Some x → r < MAX_RESULTS.
Proof.
  intros size Hidle Hsize st'. subst st'. unfold TimedUpdate. rewrite Hidle.
  rewrite bool_decide_eq_false_2 by by apply many_nonempty.
  fold size. rewrite bool_decide_eq_true_2 by done.
  rewrite bind_fst. cbn [ret fst].
  set (body := TimedUpdate_row host _).
  set (t0 := m_match_table _).
  assert (Ht0 : rowCount t0 = MAX_RESULTS
                ∧ ∀ r c x, cells t0 !! (r, c) = Some x → r < MAX_RESULTS).
  { subst t0. cbn. split; [done|]. intros r c x.
    rewrite map_lookup_filter_Some. cbn. intros [_ ?]. done. }
  set (l := seqZ _ _).
  pose proof (for_each_invariant body
    (λ t, rowCount t = MAX_RESULTS
          ∧ ∀ r c x, cells t !! (r, c) = Some x → r < MAX_RESULTS)
    l t0 Ht0) as Hloop.
  cbn beta in Hloop.
  destruct Hloop as [Hcount Hrows].
  { intros t i _ [Hc Hr].
    destruct (TimedUpdate_row_table host
                (set_m_match_table (setRowCount MAX_RESULTS (m_match_table
                   (set_m_result_label (too_many_matches size) st)))
                   (set_m_result_label (too_many_matches size) st))
                MAX_RESULTS t i) as [E Hr']; [left; lia|done|].
    split; [by rewrite <- Hc|done]. }
  cbn [m_result_label set_m_match_table m_match_table].
  done.
Qed.

(** A row of [Update] whose address is not readable: the float is read
    all the same. *)
Lemma Update_row_unreadable host st t i :
  let a := wrap32 (address (m_results st !!! Z.to_nat i) + ram_base (m_ram st)) in
  HostIsRAMAddress host a = false →
  Update_row host st t i
  = (setItem i 3 (cell i (number_float host (HostRead_F32 host a)))
       (setItem i 2 (cell i "-")
         (setItem i 1 (cell i "---")
           (setItem i 0 (cell i (arg16 a 8 "0")) t))),
     [CallIsRAMAddress a; CallRead_F32 a]).
Proof.
  intros a Hram. unfold Update_row. fold a.
  unfold isRAMAddress, read_F32, call, bind, ret. by rewrite Hram.
Qed.

(** The same row in [TimedUpdate]: nothing is read, the float cell
    stays empty. *)
Lemma TimedUpdate_row_unreadable host st t i :
  let a := wrap32 (address (m_results st !!! Z.to_nat i) + ram_base (m_ram st)) in
  HostIsRAMAddress host a = false →
  TimedUpdate_row host st t i
  = (setItem i 3 (cell i "")
       (setItem i 2 (cell i "-")
         (setItem i 1 (cell i "---") t)),
     [CallIsRAMAddress a]).
Proof.
  intros a Hram. unfold TimedUpdate_row. fold a.
  unfold isRAMAddress, call, bind, ret. by rewrite Hram.
Qed.

(** C2. The display cap and the status label, where [Update] does not
    do what [TimedUpdate] does.  With 4097 candidates [Update] fills
    no row from 4096 on, but it leaves the label
    "4097 Match(es)", not the message about too many matches, and a
    table of 4097 rows: the two statements after the cap overwrite what
    the capped branch has set.  [TimedUpdate] on the same state leaves
    the message with the count 4097 and a table of 4096 rows. *)
Theorem Update_overwrites_too_many_matches :
  let host := machine scenario_B_memory in
  Z.of_nat (length (m_results crowded)) = 4097
  ∧ (let st' := (Update host crowded).1 in
     m_result_label st' = "4097 Match(es)"
     ∧ m_result_label st' ≠ too_many_matches 4097
     ∧ rowCount (m_match_table st') = 4097
     ∧ ∀ r c x, cells (m_match_table st') !! (r, c) = Some x → r < 4096)
  ∧ (let st' := (TimedUpdate host (λ _, 0) (λ _, 20) crowded).1 in
     m_result_label st' = "Too many matches to display (4097)"
     ∧ rowCount (m_match_table st') = 4096
     ∧ ∀ r c x, cells (m_match_table st') !! (r, c) = Some x → r < 4096).
Proof.
  intros host.
  assert (Hlen : Z.of_nat (length (m_results crowded)) = 4097).
  { unfold crowded, searching.
    cbn [m_results set_m_ram set_m_search_type_size set_m_scan_is_initialized
         set_m_results].
    by rewrite length_fmap, length_seqZ. }
  split; [done|]. split.
  - destruct (Update_when_many host crowded) as (Hlabel & Hrows & Hcells).
    { rewrite Hlen. by compute. }
    rewrite Hlen in Hlabel, Hrows. cbv zeta.
    rewrite Hlabel, Hrows. split_and!; try done.
  - destruct (TimedUpdate_when_many host (λ _, 0) (λ _, 20) crowded)
      as (Hlabel & Hrows & Hcells).
    { done. }
    { rewrite Hlen. by compute. }
    rewrite Hlen in Hlabel. cbv zeta.
    rewrite Hlabel, Hrows. split_and!; try done.
Qed.

(** C9. Rows of unreadable addresses, where [Update] does not keep the
    float read behind the guard as [TimedUpdate] does.  A click on
    Initialize in the dialog as constructed, on a running game whose
    main RAM of eight bytes is allocated while no address is readable:
    the click leaves the candidates at offsets 0 and 4, and the
    [Update] that ends it shows the marker "---" and a dash for the
    decimal in both rows and goes through both rows, but it calls
    [PowerPC::HostRead_F32] for both unreadable addresses and fills the
    float cells with the results.  [Update] again on that state does
    the same; [TimedUpdate] on it asks only whether the addresses are
    readable and leaves the float cells empty. *)
Theorem Update_reads_float_at_unreadable_address :
  let host := unmapped scenario_B_memory in
  HostIsRAMAddress host 0x80000000 = false
  ∧ HostIsRAMAddress host 0x80000004 = false
  ∧ ∃ st,
      OnNewSearchClicked 3 host inhabitant fresh
      = Some (st, [ CallIsRAMAddress 0x80000000; CallRead_F32 0x80000000;
                    CallIsRAMAddress 0x80000004; CallRead_F32 0x80000004 ])
      ∧ address <$> m_results st = [0; 4]
      ∧ (let shown := λ row column, text <$> cells (m_match_table st) !! (row, column) in
         shown 0 1 = Some "---"
         ∧ shown 0 2 = Some "-"
         ∧ shown 0 3 = Some (number_float host (HostRead_F32 host 0x80000000))
         ∧ shown 1 1 = Some "---"
         ∧ shown 1 2 = Some "-"
         ∧ shown 1 3 = Some (number_float host (HostRead_F32 host 0x80000004)))
      ∧ (Update host st).2
        = [ CallIsRAMAddress 0x80000000; CallRead_F32 0x80000000;
            CallIsRAMAddress 0x80000004; CallRead_F32 0x80000004 ]
      ∧ (let st' := (TimedUpdate host (λ _, 0) (λ _, 1) st).1 in
         let shown := λ row column, text <$> cells (m_match_table st') !! (row, column) in
         shown 0 1 = Some "---"
         ∧ shown 0 2 = Some "-"
         ∧ shown 0 3 = Some ""
         ∧ shown 1 1 = Some "---"
         ∧ shown 1 3 = Some ""
         ∧ (TimedUpdate host (λ _, 0) (λ _, 1) st).2
           = [ CallIsRAMAddress 0x80000000; CallIsRAMAddress 0x80000004 ]).
Proof.
  intros host. split; [done|]. split; [done|].
  destruct (OnNewSearchClicked 3 host inhabitant fresh) as [[st tr]|] eqn:Hclick;
    vm_compute in Hclick; [|discriminate Hclick].
  injection Hclick as <- <-.
  eexists. split; [reflexivity|]. by vm_compute.
Qed.

(** * Further properties *)

(** * Further properties *)

(** ** What a pass with a value finds *)

Lemma Filter_state host value prev st :
  FilterCheatSearchResults host value prev st
  = set_m_results (m_results (FilterCheatSearchResults host value prev st)) st.
Proof. unfold FilterCheatSearchResults. by destruct (foldl _ _ _). Qed.

Lemma filter_ext_in {X} (P Q : X → Prop) `{∀ x, Decision (P x)}
    `{∀ x, Decision (Q x)} (l : list X) :
  (∀ x, x ∈ l → P x ↔ Q x) → filter P l = filter Q l.
Proof.
  induction l as [|x l IH]; intros Hext; [done|].
  rewrite !filter_cons.
  assert (Hx : P x ↔ Q x) by (apply Hext; left).
  rewrite IH by (intros y Hy; apply Hext; by right).
  destruct (decide (P x)), (decide (Q x)); tauto.
Qed.

(** The mask test of the loop, as a comparison of unsigned big-endian
    numbers. *)
Lemma bit_set_compares mem n op prev value r :
  0 ≤ n ≤ 4 → 0 ≤ op ≤ 4 →
  bit_set mem n (nth (Z.to_nat op) filters 0) prev value r
  ↔ compares op (current_value mem n r)
      (be_decode (take (Z.to_nat n) (bytes_of_u32 (operand prev value r)))).
Proof.
  intros Hn Hop. unfold bit_set, classify, compare_at, current_value.
  set (current := load mem (address r) n).
  set (against := take (Z.to_nat n) (bytes_of_u32 (operand prev value r))).
  assert (Hlen : length current = length against).
  { unfold current, against. by rewrite length_load, length_operand_bytes. }
  destruct (memcmp_be_order current against Hlen) as (Hlt & Heq & Hgt).
  set (c := memcmp current against) in *.
  unfold cmp_mask_of.
  assert (op = 0 ∨ op = 1 ∨ op = 2 ∨ op = 3 ∨ op = 4) as Hcases by lia.
  destruct (Z.ltb_spec c 0), (Z.eqb_spec c 0);
    destruct Hcases as [-> | [-> | [-> | [-> | ->]]]];
    cbn; split; intros; try done; try lia.
Qed.

(** X1. A Next Search with a value: when a region is resolved, the
    type is one of the integer types, the text parses in the selected
    base to [v], [v] fits the element size and the element size of the
    scan is that of the selected type, the pass keeps exactly the
    candidates whose current memory value, read as a big-endian
    unsigned number of the element size, stands in the selected
    relation to [v] (Unknown: all, Not Equal, Equal, Greater than,
    Less than), in their order, each with its recorded value
    refreshed.  So the byte swap of [SwapValue] and the [memcmp] on
    the host bytes together compare numerically as the emulated
    machine sees the values. *)
Theorem value_search_finds_by_unsigned_order host st v :
  ram_ptr (m_ram st) ≠ None →
  m_match_value st ≠ "" →
  m_match_length st ≠ 3 →
  toULong (m_match_value st) (value_base st) = (v, true) →
  GetTypeSize st = m_search_type_size st →
  0 ≤ v < 2 ^ (8 * GetTypeSize st) →
  0 ≤ m_match_operation st ≤ 4 →
  let mem := deref host (ram_ptr (m_ram st)) in
  let n := m_search_type_size st in
  m_results (NextSearch host st).1
  = refresh mem n
      <$> filter (λ r, compares (m_match_operation st) (current_value mem n r) v)
            (m_results st).
Proof.
  intros Hptr Htext Hfloat Hparse Hwidth Hv Hop mem n.
  destruct (GetTypeSize_divides st) as (Hn & _ & _).
  assert (Hv32 : 0 ≤ v < 2 ^ 32).
  { destruct (GetTypeSize_cases st) as [E | [E | E]]; rewrite E in Hv;
      simpl in Hv; lia. }
  rewrite (NextSearch_encodes host st v) by done.
  rewrite Update_results, Filter_results, wrap32_small by done.
  fold mem n. f_equal. apply list_filter_iff. intros r.
  rewrite bit_set_compares by (unfold n; lia).
  unfold operand, n. rewrite <- Hwidth, SwapValue_decode by done. done.
Qed.

Lemma value_search_finds_by_unsigned_order_witness :
  m_results (NextSearch (machine scenario_B_memory)
               (set_m_match_operation 3 scenario_B)).1
  = [ {| address := 4; old_value := 0x09000000 |} ].
Proof.
  refine (value_search_finds_by_unsigned_order (machine scenario_B_memory)
            (set_m_match_operation 3 scenario_B) 5 _ _ _ _ _ _ _).
  - simpl. discriminate.
  - simpl. discriminate.
  - simpl. discriminate.
  - reflexivity.
  - reflexivity.
  - change (0 ≤ 5 < 2 ^ 32). lia.
  - simpl. lia.
Defined.

(** ** What [Update] and a pass leave alone *)

(** The inputs of a pass: the region, the candidates, the element size
    and what the user has set in the widgets. *)
Lemma Update_inputs host st :
  let st' := (Update host st).1 in
  m_ram st' = m_ram st
  ∧ m_results st' = m_results st
  ∧ m_search_type_size st' = m_search_type_size st
  ∧ m_match_length st' = m_match_length st
  ∧ m_match_operation st' = m_match_operation st
  ∧ m_match_value st' = m_match_value st
  ∧ m_match_decimal st' = m_match_decimal st
  ∧ m_match_hexadecimal st' = m_match_hexadecimal st.
Proof.
  cbv zeta. rewrite Update_ram, Update_results, Update_type_size.
  split_and!; try done;
    unfold Update; cbn [set_m_updating set_m_match_table m_results];
    (case_bool_decide; [done|]);
    case_bool_decide; rewrite bind_fst; simpl; by destruct (m_refresh_enabled st).
Qed.

Lemma NextSearch_inputs host st :
  let st' := (NextSearch host st).1 in
  m_ram st' = m_ram st
  ∧ m_search_type_size st' = m_search_type_size st
  ∧ m_match_length st' = m_match_length st
  ∧ m_match_operation st' = m_match_operation st
  ∧ m_match_value st' = m_match_value st
  ∧ m_match_decimal st' = m_match_decimal st
  ∧ m_match_hexadecimal st' = m_match_hexadecimal st.
Proof.
  cbv zeta.
  destruct (NextSearch_cases host st) as [-> | [-> | (v & p & ->)]]; try done.
  destruct (Update_inputs host (FilterCheatSearchResults host v p st))
    as (-> & _ & -> & -> & -> & -> & -> & ->).
  by rewrite (Filter_state host v p st).
Qed.

(** The candidates a pass with a value leaves, as a function of its
    inputs. *)
Lemma NextSearch_value_results host st :
  m_match_value st ≠ "" →
  m_results (NextSearch host st).1
  = match ram_ptr (m_ram st) with
    | None => m_results st
    | Some _ =>
        let parsed :=
          if m_match_length st =? 3 then toFloat host (m_match_value st)
          else toULong (m_match_value st) (value_base st) in
        if parsed.2 then
          refresh (deref host (ram_ptr (m_ram st))) (m_search_type_size st)
            <$> filter (bit_set (deref host (ram_ptr (m_ram st)))
                          (m_search_type_size st)
                          (nth (Z.to_nat (m_match_operation st)) filters 0) false
                          (match GetTypeSize st with
                           | 2 => swap16_in_place (wrap32 parsed.1)
                           | 4 => swap32 (wrap32 parsed.1)
                           | _ => wrap32 parsed.1
                           end))
                  (m_results st)
        else m_results st
    end.
Proof.
  intros Htext. unfold NextSearch, value_base.
  destruct (ram_ptr (m_ram st)) as [k|] eqn:Hptr; [|done].
  rewrite bool_decide_eq_false_2 by done. cbv zeta.
  destruct (m_match_length st =? 3).
  - destruct (toFloat host (m_match_value st)) as [value [|]]; cbn [fst snd negb];
      [|done].
    by rewrite Update_results, Filter_results, Hptr.
  - destruct (toULong (m_match_value st) _) as [value [|]]; cbn [fst snd negb];
      [|done].
    by rewrite Update_results, Filter_results, Hptr.
Qed.

(** ** Passes without a value *)

(** A pass without a value, on candidates recorded while the memory was
    [mem1]: what it keeps is decided by comparing the memory now with
    [mem1]. *)
Lemma blank_pass host st mem1 :
  ram_ptr (m_ram st) ≠ None →
  m_match_value st = "" →
  0 ≤ m_search_type_size st ≤ 4 →
  0 ≤ m_match_operation st ≤ 4 →
  up_to_date mem1 (m_search_type_size st) (m_results st) →
  let mem := deref host (ram_ptr (m_ram st)) in
  let n := m_search_type_size st in
  m_results (NextSearch host st).1
  = refresh mem n
      <$> filter (λ r, compares (m_match_operation st)
                         (current_value mem n r) (current_value mem1 n r))
            (m_results st).
Proof.
  intros Hptr Hblank Hn Hop Hrec mem n.
  rewrite NextSearch_blank, Update_results, Filter_results by done.
  fold mem n. f_equal. apply filter_ext_in. intros r Hr.
  rewrite bit_set_compares by done.
  unfold operand, current_value, n. by rewrite (Hrec r Hr).
Qed.

Lemma Filter_up_to_date host value prev st :
  0 ≤ m_search_type_size st ≤ 4 →
  up_to_date (deref host (ram_ptr (m_ram st))) (m_search_type_size st)
    (m_results (FilterCheatSearchResults host value prev st)).
Proof. intros Hn r Hr. by apply (Filter_refreshes host value prev). Qed.

(** The candidates a successful click on Initialize leaves. *)
Lemma Initialize_results fuel host r st st' tr :
  OnNewSearchClicked fuel host r st = Some (st', tr) →
  IsRunningAndStarted host = true →
  ram_ptr (m_ram (MemoryPtr host false st)) ≠ None →
  let ram := m_ram (MemoryPtr host false st) in
  let n := GetTypeSize st in
  let lo := (search_range ram (m_range_start st) (m_range_end st)).1 in
  let hi := (search_range ram (m_range_start st) (m_range_end st)).2 in
  m_ram st' = ram ∧ m_search_type_size st' = n
  ∧ (n | hi - lo)
  ∧ m_results st' = scanned (deref host (ram_ptr ram)) n r <$> offsets n lo hi.
Proof.
  intros Hclick Hrun Hptr ram n lo hi.
  destruct (OnNewSearchClicked_armed fuel host r st st' tr Hclick Hrun Hptr)
    as (Hts & Hram).
  pose proof (OnNewSearchClicked_candidates fuel host r st) as Hres.
  rewrite Hclick, Hrun in Hres. simpl in Hres. fold ram in Hres, Hptr.
  destruct (ram_ptr ram) as [k|] eqn:Ek; [|done].
  pose proof (search_range_bounds ram (m_range_start st) (m_range_end st)) as Hb.
  fold lo hi in Hres. subst lo hi.
  destruct (search_range ram (m_range_start st) (m_range_end st)) as [lo hi].
  cbn [fst snd] in *. destruct Hb as (Hlohi & Hhi & _ & _).
  destruct (GetTypeSize_divides st) as (Hn & _ & H32).
  pose proof (wrap32_range (ram_size ram)).
  symmetry in Hres.
  apply scan_result in Hres as (Hw & Hres); [|done|done|lia|lia].
  done.
Qed.

Lemma Initialize_up_to_date fuel host r st st' tr :
  OnNewSearchClicked fuel host r st = Some (st', tr) →
  IsRunningAndStarted host = true →
  ram_ptr (m_ram (MemoryPtr host false st)) ≠ None →
  up_to_date (deref host (ram_ptr (m_ram st'))) (m_search_type_size st')
    (m_results st').
Proof.
  intros Hclick Hrun Hptr.
  destruct (Initialize_results fuel host r st st' tr Hclick Hrun Hptr)
    as (-> & -> & _ & ->).
  destruct (GetTypeSize_divides st) as (Hn & _ & _).
  intros c (a & -> & _)%list_elem_of_fmap.
  apply scanned_holds_current. lia.
Qed.

(** X2. A Next Search with the value field left blank compares every
    candidate with what memory held at the previous pass: after a pass
    of [FilterCheatSearchResults] on memory [mem1], and likewise after
    a completed click on Initialize on memory [mem1], a blank Next
    Search on memory [mem2] keeps exactly the candidates whose value
    in [mem2] stands in the selected relation to their value in
    [mem1], both read as big-endian unsigned numbers, and refreshes
    them from [mem2]. *)
Theorem blank_search_compares_with_previous_pass :
  (∀ host1 host2 value prev op st,
     ram_ptr (m_ram st) ≠ None →
     0 ≤ m_search_type_size st ≤ 4 →
     0 ≤ op ≤ 4 →
     let n := m_search_type_size st in
     let mem1 := deref host1 (ram_ptr (m_ram st)) in
     let mem2 := deref host2 (ram_ptr (m_ram st)) in
     let st1 := FilterCheatSearchResults host1 value prev st in
     m_results (NextSearch host2 (blank op st1)).1
     = refresh mem2 n
         <$> filter (λ r, compares op (current_value mem2 n r) (current_value mem1 n r))
               (m_results st1))
  ∧ (∀ fuel host1 host2 r op st st1 tr,
       OnNewSearchClicked fuel host1 r st = Some (st1, tr) →
       IsRunningAndStarted host1 = true →
       ram_ptr (m_ram (MemoryPtr host1 false st)) ≠ None →
       0 ≤ op ≤ 4 →
       let n := m_search_type_size st1 in
       let mem1 := deref host1 (ram_ptr (m_ram st1)) in
       let mem2 := deref host2 (ram_ptr (m_ram st1)) in
       m_results (NextSearch host2 (blank op st1)).1
       = refresh mem2 n
           <$> filter (λ r, compares op (current_value mem2 n r) (current_value mem1 n r))
                 (m_results st1)).
Proof.
  split.
  - intros host1 host2 value prev op st Hptr Hn Hop n mem1 mem2 st1.
    pose proof (Filter_up_to_date host1 value prev st Hn) as Hrec.
    subst st1. rewrite (Filter_state host1 value prev st).
    set (res := m_results (FilterCheatSearchResults host1 value prev st)) in *.
    by apply (blank_pass host2 (blank op (set_m_results res st)) mem1).
  - intros fuel host1 host2 r op st st1 tr Hclick Hrun Hptr Hop n mem1 mem2.
    pose proof (Initialize_up_to_date fuel host1 r st st1 tr Hclick Hrun Hptr) as Hrec.
    destruct (Initialize_results fuel host1 r st st1 tr Hclick Hrun Hptr)
      as (Hram & Hts & _ & _).
    destruct (GetTypeSize_divides st) as (Hsz & _ & _).
    apply (blank_pass host2 (blank op st1) mem1); try done.
    + cbn. by rewrite Hram.
    + cbn. rewrite Hts. lia.
Qed.

Lemma blank_search_compares_with_previous_pass_witness :
  m_results
    (NextSearch (machine scenario_C_memory)
       (blank 3 (FilterCheatSearchResults (machine scenario_B_memory) 0 true
                   scenario_C))).1
  = [ {| address := 0; old_value := 0x06000000 |} ].
Proof.
  refine (proj1 blank_search_compares_with_previous_pass
            (machine scenario_B_memory) (machine scenario_C_memory)
            0 true 3 scenario_C _ _ _).
  - simpl. discriminate.
  - simpl. lia.
  - lia.
Defined.

Lemma refresh_refresh mem n r :
  0 ≤ n ≤ 4 → refresh mem n (refresh mem n r) = refresh mem n r.
Proof.
  intros Hn. unfold refresh. cbn [address old_value]. f_equal.
  apply memcpy_u32_again; rewrite ?length_load; lia.
Qed.

Lemma refresh_scanned mem n r a :
  0 ≤ n ≤ 4 → refresh mem n (scanned mem n r a) = scanned mem n r a.
Proof.
  intros Hn. unfold refresh, scanned. cbn [address old_value]. f_equal.
  apply memcpy_u32_again; rewrite ?length_load; lia.
Qed.

Lemma refresh_fixed_up_to_date mem n (results : list Result) :
  0 ≤ n ≤ 4 →
  (∀ r, r ∈ results → refresh mem n r = r) → up_to_date mem n results.
Proof.
  intros Hn Hfix r Hr. rewrite <- (Hfix r Hr) at 1.
  by apply refresh_holds_current.
Qed.

Lemma fmap_fixed {X} (f : X → X) (l : list X) :
  (∀ x, x ∈ l → f x = x) → f <$> l = l.
Proof.
  intros Hfix. rewrite <- (list_fmap_id l) at 2.
  apply list_fmap_ext. intros i x Hx. apply Hfix. by eapply list_elem_of_lookup_2.
Qed.

Lemma filter_none {X} (P : X → Prop) `{∀ x, Decision (P x)} (l : list X) :
  (∀ x, ¬ P x) → filter P l = [].
Proof.
  intros HP. induction l as [|x l IH]; [done|].
  by rewrite filter_cons, decide_False, IH.
Qed.

(** A pass without a value while the memory still holds what the
    candidates record. *)
Lemma blank_pass_unchanged host st :
  ram_ptr (m_ram st) ≠ None →
  m_match_value st = "" →
  0 ≤ m_search_type_size st ≤ 4 →
  (∀ r, r ∈ m_results st →
        refresh (deref host (ram_ptr (m_ram st))) (m_search_type_size st) r = r) →
  (m_match_operation st = 0 ∨ m_match_operation st = 2 →
   m_results (NextSearch host st).1 = m_results st)
  ∧ (m_match_operation st = 1 ∨ m_match_operation st = 3
     ∨ m_match_operation st = 4 →
     m_results (NextSearch host st).1 = []).
Proof.
  intros Hptr Hblank Hn Hfix.
  pose proof (refresh_fixed_up_to_date _ _ _ Hn Hfix) as Hrec.
  split; intros Hop;
    rewrite (blank_pass host st (deref host (ram_ptr (m_ram st)))) by (done || lia).
  - rewrite filter_all; [by apply fmap_fixed|].
    intros r. by destruct Hop as [-> | ->].
  - rewrite filter_none; [done|].
    intros r. destruct Hop as [-> | [-> | ->]]; simpl; lia.
Qed.

(** X3. On memory that has not changed since the previous pass (or
    since Initialize), a blank Next Search with Unknown or Equal
    leaves the candidate list as it is, recorded values included, and
    with Not Equal, Greater than or Less than it leaves no candidate. *)
Theorem blank_search_on_unchanged_memory :
  (∀ host value prev op st,
     ram_ptr (m_ram st) ≠ None →
     0 ≤ m_search_type_size st ≤ 4 →
     let st1 := FilterCheatSearchResults host value prev st in
     (op = 0 ∨ op = 2 → m_results (NextSearch host (blank op st1)).1 = m_results st1)
     ∧ (op = 1 ∨ op = 3 ∨ op = 4 → m_results (NextSearch host (blank op st1)).1 = []))
  ∧ (∀ fuel host r op st st1 tr,
       OnNewSearchClicked fuel host r st = Some (st1, tr) →
       IsRunningAndStarted host = true →
       ram_ptr (m_ram (MemoryPtr host false st)) ≠ None →
       (op = 0 ∨ op = 2 → m_results (NextSearch host (blank op st1)).1 = m_results st1)
       ∧ (op = 1 ∨ op = 3 ∨ op = 4 → m_results (NextSearch host (blank op st1)).1 = [])).
Proof.
  split.
  - intros host value prev op st Hptr Hn st1. subst st1.
    rewrite (Filter_state host value prev st).
    pose proof (Filter_results host value prev st) as Hres.
    set (res := m_results (FilterCheatSearchResults host value prev st)) in *.
    apply (blank_pass_unchanged host (blank op (set_m_results res st))); try done.
    cbn. intros r Hr. rewrite Hres in Hr.
    apply list_elem_of_fmap in Hr as (r0 & -> & _). by apply refresh_refresh.
  - intros fuel host r op st st1 tr Hclick Hrun Hptr.
    destruct (Initialize_results fuel host r st st1 tr Hclick Hrun Hptr)
      as (Hram & Hts & _ & Hres).
    destruct (GetTypeSize_divides st) as (Hsz & _ & _).
    apply (blank_pass_unchanged host (blank op st1)).
    + cbn. by rewrite Hram.
    + done.
    + cbn. rewrite Hts. lia.
    + cbn. rewrite Hram, Hts. intros c Hc. rewrite Hres in Hc.
      apply list_elem_of_fmap in Hc as (a & -> & _). apply refresh_scanned. lia.
Qed.

Lemma blank_search_on_unchanged_memory_witness :
  m_results
    (NextSearch (machine scenario_B_memory)
       (blank 1 (FilterCheatSearchResults (machine scenario_B_memory) 0 true
                   scenario_C))).1
  = [].
Proof.
  refine (proj2 (proj1 blank_search_on_unchanged_memory
                   (machine scenario_B_memory) 0 true 1 scenario_C _ _) _).
  - simpl. discriminate.
  - simpl. lia.
  - left. reflexivity.
Defined.

(** ** Passes with a value: again, split, and modulo the width *)

Lemma bit_set_refresh mem n mask value r :
  bit_set mem n mask false value (refresh mem n r)
  ↔ bit_set mem n mask false value r.
Proof. done. Qed.

(** The candidates kept by a pass with a value are all kept by the same
    pass again. *)
Lemma value_pass_again mem n mask value (l : list Result) :
  0 ≤ n ≤ 4 →
  let kept := refresh mem n <$> filter (bit_set mem n mask false value) l in
  refresh mem n <$> filter (bit_set mem n mask false value) kept = kept.
Proof.
  intros Hn kept.
  rewrite (filter_ext_in _ (λ _, True)).
  - rewrite filter_all by done. apply fmap_fixed.
    intros r (r0 & -> & _)%list_elem_of_fmap. by apply refresh_refresh.
  - intros r (r0 & -> & Hr0)%list_elem_of_fmap.
    apply list_elem_of_filter in Hr0 as [Hr0 _].
    rewrite bit_set_refresh. tauto.
Qed.

(** X4. A Next Search with a value, repeated on the same memory with
    the same inputs, leaves the candidates of the first pass: the
    second pass removes nothing and changes no recorded value. *)
Theorem value_search_again_changes_nothing host st :
  m_match_value st ≠ "" →
  0 ≤ m_search_type_size st ≤ 4 →
  m_results (NextSearch host (NextSearch host st).1).1
  = m_results (NextSearch host st).1.
Proof.
  intros Htext Hn.
  destruct (NextSearch_inputs host st) as (Hram & Hts & Hlen & Hop & Hval & Hdec & Hhex).
  rewrite (NextSearch_value_results host (NextSearch host st).1) by by rewrite Hval.
  unfold value_base, GetTypeSize.
  rewrite Hram, Hts, Hlen, Hop, Hval, Hdec, Hhex.
  fold (GetTypeSize st). fold (value_base st).
  rewrite (NextSearch_value_results host st) by done.
  destruct (ram_ptr (m_ram st)) as [k|]; [|done]. cbv zeta.
  destruct (if m_match_length st =? 3 then _ else _) as [value [|]];
    cbn [fst snd]; [|done].
  by apply value_pass_again.
Qed.

Lemma value_search_again_changes_nothing_witness :
  m_results (NextSearch (machine scenario_B_memory)
               (NextSearch (machine scenario_B_memory) scenario_B).1).1
  = m_results (NextSearch (machine scenario_B_memory) scenario_B).1.
Proof.
  apply value_search_again_changes_nothing.
  - simpl. discriminate.
  - simpl. lia.
Defined.

Lemma filter_length_split {X} (P Q R : X → Prop) `{∀ x, Decision (P x)}
    `{∀ x, Decision (Q x)} `{∀ x, Decision (R x)} (l : list X) :
  (∀ x, P x ↔ Q x ∨ R x) → (∀ x, Q x → R x → False) →
  length (filter P l) = (length (filter Q l) + length (filter R l))%nat.
Proof.
  intros Hsplit Hdisjoint. induction l as [|x l IH]; [done|].
  rewrite !filter_cons.
  pose proof (Hsplit x). pose proof (Hdisjoint x).
  destruct (decide (P x)), (decide (Q x)), (decide (R x));
    simpl; rewrite ?IH; try lia; tauto.
Qed.

Lemma Filter_count host value prev op st :
  length (m_results (FilterCheatSearchResults host value prev
                       (set_m_match_operation op st)))
  = length (filter (bit_set (deref host (ram_ptr (m_ram st))) (m_search_type_size st)
                      (nth (Z.to_nat op) filters 0) prev value) (m_results st)).
Proof. by rewrite Filter_results, length_fmap. Qed.

(** X5. The five operations partition the candidates: on one state
    and one memory, Unknown keeps all of them, Equal and Not Equal
    together keep each candidate exactly once, and Greater than and
    Less than together keep exactly those that Not Equal keeps. *)
Theorem passes_split_the_candidates host value prev st :
  let count op :=
    length (m_results (FilterCheatSearchResults host value prev
                         (set_m_match_operation op st))) in
  count 0 = length (m_results st)
  ∧ Nat.add (count 2) (count 1) = length (m_results st)
  ∧ Nat.add (count 3) (count 4) = count 1.
Proof.
  intros count. subst count. cbv beta. rewrite !Filter_count.
  set (mem := deref host (ram_ptr (m_ram st))).
  set (n := m_search_type_size st).
  assert (Hclass : ∀ r, let c := classify mem n r (operand prev value r) in
            c = EQUAL ∨ c = GREATER_THAN ∨ c = LESS_THAN).
  { intros r. apply cmp_mask_of_cases. }
  split_and!.
  - rewrite filter_all; [done|]. intros r. unfold bit_set.
    destruct (Hclass r) as [-> | [-> | ->]]; by compute.
  - rewrite <- (filter_all (λ _, True) (m_results st)) at 3 by done.
    symmetry. apply (filter_length_split (λ _, True)); intros r; unfold bit_set;
      destruct (Hclass r) as [-> | [-> | ->]]; compute; intuition congruence.
  - symmetry. apply filter_length_split; intros r; unfold bit_set;
      destruct (Hclass r) as [-> | [-> | ->]]; compute; intuition congruence.
Qed.

Lemma byte_of_mod z z' : z mod 256 = z' mod 256 → byte_of z = byte_of z'.
Proof. unfold byte_of. by intros ->. Qed.

(** The bytes of the encoded value that a pass looks at depend on the
    value modulo the width only. *)
Lemma SwapValue_prefix_mod st v v' :
  0 ≤ v < 2 ^ 32 → 0 ≤ v' < 2 ^ 32 →
  v mod 2 ^ (8 * GetTypeSize st) = v' mod 2 ^ (8 * GetTypeSize st) →
  take (Z.to_nat (GetTypeSize st)) (bytes_of_u32 (SwapValue st v))
  = take (Z.to_nat (GetTypeSize st)) (bytes_of_u32 (SwapValue st v')).
Proof.
  intros Hv Hv'. unfold SwapValue.
  destruct (GetTypeSize_cases st) as [-> | [-> | ->]]; intros Hmod.
  - change (2 ^ (8 * 1)) with 256 in Hmod.
    change (Z.to_nat 1) with 1%nat. unfold bytes_of_u32. cbn [fmap list_fmap take].
    f_equal. apply byte_of_mod. by rewrite !Z.shiftr_0_r.
  - change (2 ^ (8 * 2)) with 65536 in Hmod.
    change (Z.to_nat 2) with 2%nat.
    assert (Hb : ∀ x, bytes_of_u32 x
                      = [byte_of (Z.shiftr x (8 * 0)); byte_of (Z.shiftr x (8 * 1));
                         byte_of (Z.shiftr x (8 * 2)); byte_of (Z.shiftr x (8 * 3))])
      by done.
    rewrite (swap16_in_place_bytes v _ _ _ _ (Hb v)).
    rewrite (swap16_in_place_bytes v' _ _ _ _ (Hb v')).
    rewrite !bytes_of_u32_of_bytes. cbn [take].
    f_equal; [|f_equal]; apply byte_of_mod; rewrite !Z.shiftr_div_pow2 by lia;
      simpl Z.pow; Z.div_mod_to_equations; lia.
  - change (2 ^ (8 * 4)) with (2 ^ 32) in Hmod.
    rewrite !Z.mod_small in Hmod by done. by subst.
Qed.

(** X6. Only the low bytes of the search value count: two texts
    whose values agree modulo [2^(8 * element size)] (after the
    truncation to 32 bits) give the same candidates.  A search for 261
    among 8-bit values is a search for 5. *)
Theorem search_value_counts_modulo_the_width host st text text' v v' :
  ram_ptr (m_ram st) ≠ None →
  m_match_length st ≠ 3 →
  GetTypeSize st = m_search_type_size st →
  text ≠ "" → text' ≠ "" →
  toULong text (value_base st) = (v, true) →
  toULong text' (value_base st) = (v', true) →
  wrap32 v mod 2 ^ (8 * GetTypeSize st) = wrap32 v' mod 2 ^ (8 * GetTypeSize st) →
  m_results (NextSearch host (set_m_match_value text st)).1
  = m_results (NextSearch host (set_m_match_value text' st)).1.
Proof.
  intros Hptr Hfloat Hwidth Htext Htext' Hparse Hparse' Hmod.
  rewrite (NextSearch_encodes host (set_m_match_value text st) v) by done.
  rewrite (NextSearch_encodes host (set_m_match_value text' st) v') by done.
  rewrite !Update_results, !Filter_results.
  cbn [set_m_match_value m_ram m_results m_search_type_size m_match_operation].
  change (SwapValue (set_m_match_value text st)) with (SwapValue st).
  change (SwapValue (set_m_match_value text' st)) with (SwapValue st).
  f_equal. apply list_filter_iff. intros r.
  unfold bit_set, classify, compare_at, operand. rewrite <- Hwidth.
  by rewrite (SwapValue_prefix_mod st (wrap32 v) (wrap32 v'))
    by (done || apply wrap32_range).
Qed.

Lemma search_value_counts_modulo_the_width_witness :
  let st := set_m_search_type_size 1 (set_m_match_length 0 scenario_B) in
  m_results (NextSearch (machine scenario_B_memory) (set_m_match_value "5" st)).1
  = m_results (NextSearch (machine scenario_B_memory) (set_m_match_value "261" st)).1.
Proof.
  intros st.
  apply (search_value_counts_modulo_the_width (machine scenario_B_memory) st
           "5" "261" 5 261).
  - simpl. discriminate.
  - simpl. discriminate.
  - reflexivity.
  - discriminate.
  - discriminate.
  - reflexivity.
  - reflexivity.
  - reflexivity.
Defined.

(** ** More on Initialize *)

Lemma length_offsets n lo hi :
  0 ≤ (hi - lo) / n → Z.of_nat (length (offsets n lo hi)) = (hi - lo) / n.
Proof.
  intros Hk. unfold offsets. rewrite length_fmap, length_seqZ. lia.
Qed.

(** X7. A completed click on Initialize leaves [(hi - lo) / n]
    candidates for the window [lo, hi) of [search_range] and the
    element size [n], which is at most [size / n]: what
    [m_results.reserve(m_ram.size / m_search_type_size)] reserved is
    never exceeded. *)
Theorem Initialize_stays_within_the_reserve fuel host r st st' tr :
  OnNewSearchClicked fuel host r st = Some (st', tr) →
  IsRunningAndStarted host = true →
  ram_ptr (m_ram (MemoryPtr host false st)) ≠ None →
  0 ≤ ram_size (m_ram st') →
  let n := m_search_type_size st' in
  let lo := (search_range (m_ram st') (m_range_start st) (m_range_end st)).1 in
  let hi := (search_range (m_ram st') (m_range_start st) (m_range_end st)).2 in
  Z.of_nat (length (m_results st')) = (hi - lo) / n
  ∧ Z.of_nat (length (m_results st')) ≤ ram_size (m_ram st') / n.
Proof.
  intros Hclick Hrun Hptr Hsize n lo hi.
  destruct (Initialize_results fuel host r st st' tr Hclick Hrun Hptr)
    as (Hram & Hts & Hdiv & Hres).
  subst n lo hi. rewrite Hram in *. rewrite Hts, Hres.
  set (ram := m_ram (MemoryPtr host false st)) in *.
  pose proof (search_range_bounds ram (m_range_start st) (m_range_end st)) as Hb.
  destruct (search_range ram (m_range_start st) (m_range_end st)) as [lo hi].
  cbn [fst snd] in *. destruct Hb as (Hlohi & Hhi & _ & _).
  destruct (GetTypeSize_divides st) as (Hn & _ & _).
  rewrite length_fmap.
  assert (Hq : 0 ≤ (hi - lo) / GetTypeSize st) by (apply Z.div_pos; lia).
  rewrite length_offsets by done. split; [done|].
  apply Z.div_le_mono; [lia|].
  assert (wrap32 (ram_size ram) ≤ ram_size ram) by (apply Z.mod_le; lia).
  lia.
Qed.

Lemma Initialize_stays_within_the_reserve_witness :
  ∃ st' tr,
    OnNewSearchClicked 5 (machine scenario_A_memory) inhabitant scenario_A
    = Some (st', tr)
    ∧ Z.of_nat (length (m_results st'))
      ≤ ram_size (m_ram st') / m_search_type_size st'.
Proof.
  destruct (OnNewSearchClicked 5 (machine scenario_A_memory) inhabitant scenario_A)
    as [[st' tr]|] eqn:Hclick; [|vm_compute in Hclick; discriminate Hclick].
  exists st', tr. split; [reflexivity|].
  refine (proj2 (Initialize_stays_within_the_reserve 5 (machine scenario_A_memory)
                   inhabitant scenario_A st' tr Hclick _ _ _)).
  - reflexivity.
  - simpl. discriminate.
  - vm_compute in Hclick. injection Hclick as <- _. cbn [m_ram ram_size]. lia.
Defined.

(** X8. When the element size does not divide the length of the
    window, the scan loop [addr != range_end] never meets its bound:
    whatever the number of iterations allowed, the click on Initialize
    does not complete.  (Both ends of a window are multiples of 16
    unless the end is the region size, so this is a region whose size
    is no multiple of the element size.) *)
Theorem Initialize_never_ends_on_a_ragged_window fuel host r st :
  IsRunningAndStarted host = true →
  ram_ptr (m_ram (MemoryPtr host false st)) ≠ None →
  let ram := m_ram (MemoryPtr host false st) in
  let lo := (search_range ram (m_range_start st) (m_range_end st)).1 in
  let hi := (search_range ram (m_range_start st) (m_range_end st)).2 in
  ¬ (GetTypeSize st | hi - lo) →
  OnNewSearchClicked fuel host r st = None.
Proof.
  intros Hrun Hptr ram lo hi Hragged.
  destruct (OnNewSearchClicked fuel host r st) as [[st' tr]|] eqn:Hclick; [|done].
  destruct (Initialize_results fuel host r st st' tr Hclick Hrun Hptr)
    as (_ & _ & Hdiv & _).
  done.
Qed.

Lemma Initialize_never_ends_on_a_ragged_window_witness :
  OnNewSearchClicked 1000 (machine ragged_memory) inhabitant scenario_A = None.
Proof.
  apply Initialize_never_ends_on_a_ragged_window.
  - reflexivity.
  - simpl. discriminate.
  - intros [q Hq]. change (6 - 0 = q * 4) in Hq. lia.
Defined.

Lemma MemoryPtr_unavailable host st :
  region_buffer host (m_ram_checked st) = None →
  MemoryPtr host false st = set_m_result_label "Memory region is invalid." st.
Proof.
  intros Hbuf. unfold MemoryPtr. rewrite Hbuf. by destruct (m_ram_checked st).
Qed.

(** X9. A click on Initialize while the checked region is not
    allocated: [MemoryPtr] sets the label to "Memory region is
    invalid." and leaves [m_ram] alone.  If no region was resolved
    before, the click ends there, and nothing else changes; if one
    was, the click does not stop but scans that earlier region, with
    its size and base. *)
Theorem Initialize_falls_back_to_the_earlier_region fuel host r st :
  IsRunningAndStarted host = true →
  region_buffer host (m_ram_checked st) = None →
  (ram_ptr (m_ram st) = None →
   OnNewSearchClicked fuel host r st
   = Some (set_m_result_label "Memory region is invalid." st, []))
  ∧ (∀ k, ram_ptr (m_ram st) = Some k →
       (λ x, m_results x.1) <$> OnNewSearchClicked fuel host r st
       = scan fuel (deref host (Some k)) (GetTypeSize st)
           (search_range (m_ram st) (m_range_start st) (m_range_end st)).2
           (search_range (m_ram st) (m_range_start st) (m_range_end st)).1 r []
       ∧ ∀ st' tr, OnNewSearchClicked fuel host r st = Some (st', tr) →
                   m_ram st' = m_ram st).
Proof.
  intros Hrun Hbuf. split.
  - intros Hnull. unfold OnNewSearchClicked.
    rewrite Hrun, (MemoryPtr_unavailable host st Hbuf). simpl negb. cbv iota.
    cbn [m_ram set_m_result_label]. by rewrite Hnull.
  - intros k Hk. split.
    + rewrite OnNewSearchClicked_candidates, Hrun. simpl negb. cbv iota zeta.
      rewrite (MemoryPtr_unavailable host st Hbuf).
      cbn [m_ram set_m_result_label]. by rewrite Hk.
    + intros st' tr Hclick.
      destruct (OnNewSearchClicked_armed fuel host r st st' tr Hclick Hrun) as [_ ->].
      * rewrite (MemoryPtr_unavailable host st Hbuf). cbn. by rewrite Hk.
      * by rewrite (MemoryPtr_unavailable host st Hbuf).
Qed.

Lemma Initialize_falls_back_to_the_earlier_region_witness :
  let st := set_m_ram_checked WiiRAM (searching 8 4 []) in
  (λ x, m_results x.1)
    <$> OnNewSearchClicked 5 (machine scenario_B_memory) inhabitant st
  = scan 5 (mem_of_list scenario_B_memory) 4 8 0 inhabitant [].
Proof.
  intros st.
  exact (proj1 (proj2 (Initialize_falls_back_to_the_earlier_region 5
                         (machine scenario_B_memory) inhabitant st eq_refl eq_refl)
                  MainRAM eq_refl)).
Defined.

(** X10. Two bounds that parse and are in order select the window
    between them, both ends rounded down to a multiple of 16, as long
    as the rounded start is not the start of the region and the rounded
    end is inside it; two bounds in the same block of 16 bytes select
    the whole region. *)
Theorem ordered_bounds_give_the_aligned_window ram s e :
  0 ≤ ram_size ram < 2 ^ 32 →
  (toUInt s 16).2 = true →
  (toUInt e 16).2 = true →
  let cs := 16 * (offset_of ram s / 16) in
  let ce := 16 * (offset_of ram e / 16) in
  (0 < cs → cs < ce → ce ≤ ram_size ram → search_range ram s e = (cs, ce))
  ∧ (cs = ce → search_range ram s e = (0, ram_size ram)).
Proof.
  intros Hsize Hs He cs ce. subst cs ce. unfold search_range, offset_of in *.
  destruct (toUInt s 16) as [vs gs], (toUInt e 16) as [ve ge]. cbn [fst snd] in *.
  subst gs ge. simpl negb. cbv iota.
  rewrite (wrap32_small (ram_size ram)) by done.
  pose proof (masked_offset (vs - ram_base ram)) as (Es & _).
  pose proof (masked_offset (ve - ram_base ram)) as (Ee & _).
  rewrite <- Es, <- Ee.
  set (cs := Z.land (wrap32 (vs - ram_base ram)) 0xfffffff0).
  set (ce := Z.land (wrap32 (ve - ram_base ram)) 0xfffffff0).
  rewrite ?Z.gtb_ltb.
  split; intros;
    repeat match goal with
           | |- context [?a <? ?b] => destruct (Z.ltb_spec a b)
           end; simpl andb in *; cbv iota in *; try done; try lia; f_equal; lia.
Qed.

Lemma ordered_bounds_give_the_aligned_window_witness :
  search_range main_ram "80000018" "80000100" = (16, 256).
Proof.
  refine (proj1 (ordered_bounds_give_the_aligned_window main_ram
                   "80000018" "80000100" _ _ _) _ _ _).
  - simpl. lia.
  - reflexivity.
  - reflexivity.
  - by vm_compute.
  - by vm_compute.
  - by vm_compute.
Defined.

(** ** What the refresh asks of the emulator *)

Section traces.

Context {A S : Type} (body : S → A → Traced S).

Lemma for_each_trace_Forall (Q : HostCall → Prop) (l : list A) : ∀ s,
  (∀ s x, Forall Q (body s x).2) → Forall Q (for_each body s l).2.
Proof.
  induction l as [|x l IH]; intros s Hbody; [constructor|].
  cbn [for_each]. rewrite bind_snd. apply Forall_app. split; [apply Hbody|].
  by apply IH.
Qed.

(** When the calls of an iteration do not depend on the loop state, the
    addresses asked about are those of the iterations, in order. *)
Lemma for_each_queried (ask : A → list Z) (l : list A) : ∀ s,
  (∀ s x, queried (body s x).2 = ask x) →
  queried (for_each body s l).2 = mjoin (ask <$> l).
Proof.
  induction l as [|x l IH]; intros s Hbody; [done|].
  cbn [for_each]. rewrite bind_snd. unfold queried in *.
  rewrite omap_app, Hbody, fmap_cons. cbn [mjoin list_join]. f_equal.
  by apply IH.
Qed.

End traces.

Lemma Z_cases_124 (n : Z) : n = 1 ∨ n = 2 ∨ n = 4 ∨ (n ≠ 1 ∧ n ≠ 2 ∧ n ≠ 4).
Proof. lia. Qed.

Lemma TimedUpdate_texts_trace host n a :
  HostIsRAMAddress host a = true →
  Forall (guarded host) (TimedUpdate_texts host n a).2.
Proof.
  intros Hram. unfold TimedUpdate_texts.
  destruct n as [|[[p|p|]|[[p|p|]|[p|p|]|]|]|p];
    cbn; repeat constructor; exact Hram.
Qed.

Lemma Update_value_text_trace host n a :
  HostIsRAMAddress host a = true →
  Forall (guarded host) (Update_value_text host n a).2.
Proof.
  intros Hram. unfold Update_value_text.
  destruct n as [|[[p|p|]|[[p|p|]|[p|p|]|]|]|p];
    cbn; repeat constructor; exact Hram.
Qed.

Lemma guarded_integer host c : guarded host c → integer_guarded host c.
Proof. by destruct c. Qed.

Lemma TimedUpdate_row_guarded host st t i :
  Forall (guarded host) (TimedUpdate_row host st t i).2.
Proof.
  unfold TimedUpdate_row. rewrite !bind_snd. cbn [ret snd isRAMAddress call fst].
  rewrite !app_nil_r.
  repeat (apply Forall_app; split); try by repeat constructor.
  destruct (HostIsRAMAddress host _) eqn:Hram; [|constructor].
  by apply TimedUpdate_texts_trace.
Qed.

Lemma Update_row_integer_guarded host st t i :
  Forall (integer_guarded host) (Update_row host st t i).2.
Proof.
  unfold Update_row. rewrite !bind_snd.
  cbn [ret snd isRAMAddress read_F32 call fst]. rewrite !app_nil_r.
  repeat (apply Forall_app; split); try by repeat constructor.
  destruct (HostIsRAMAddress host _) eqn:Hram; [|constructor].
  eapply Forall_impl; [by apply Update_value_text_trace|].
  apply guarded_integer.
Qed.

(** X11. [TimedUpdate] reads only where [PowerPC::HostIsRAMAddress]
    said yes: every read of its trace, integer or float, is at an
    address for which the host answers true.  [Update] keeps its
    integer reads behind the same guard (its float read is outside
    it). *)
Theorem reads_stay_behind_the_guard :
  (∀ host top bottom st,
     Forall (guarded host) (TimedUpdate host top bottom st).2)
  ∧ (∀ host st, Forall (integer_guarded host) (Update host st).2).
Proof.
  split.
  - intros host top bottom st. unfold TimedUpdate.
    destruct (m_updating st); [constructor|].
    case_bool_decide; [constructor|].
    case_bool_decide; rewrite bind_snd; cbn [ret snd]; rewrite app_nil_r;
      apply for_each_trace_Forall; intros; apply TimedUpdate_row_guarded.
  - intros host st. unfold Update.
    cbn [set_m_updating set_m_match_table m_results].
    case_bool_decide; [constructor|].
    case_bool_decide; rewrite bind_snd; cbn [ret snd]; rewrite app_nil_r;
      apply for_each_trace_Forall; intros; apply Update_row_integer_guarded.
Qed.

Lemma Update_value_text_queried host n a :
  queried (Update_value_text host n a).2 = [].
Proof.
  unfold Update_value_text.
  by destruct n as [|[[p|p|]|[[p|p|]|[p|p|]|]|]|p].
Qed.

Lemma TimedUpdate_texts_queried host n a :
  queried (TimedUpdate_texts host n a).2 = [].
Proof.
  unfold TimedUpdate_texts.
  by destruct n as [|[[p|p|]|[[p|p|]|[p|p|]|]|]|p].
Qed.

Lemma Update_row_queried host st t i :
  queried (Update_row host st t i).2
  = [absolute st (m_results st !!! Z.to_nat i)].
Proof.
  unfold Update_row, queried. rewrite !bind_snd.
  cbn [ret snd isRAMAddress read_F32 call fst]. rewrite !omap_app.
  destruct (HostIsRAMAddress host _); [|done].
  fold (queried (Update_value_text host (m_search_type_size st)
    (wrap32 (address (m_results st !!! Z.to_nat i) + ram_base (m_ram st)))).2).
  by rewrite Update_value_text_queried.
Qed.

Lemma TimedUpdate_row_queried host st t i :
  queried (TimedUpdate_row host st t i).2
  = [absolute st (m_results st !!! Z.to_nat i)].
Proof.
  unfold TimedUpdate_row, queried. rewrite !bind_snd.
  cbn [ret snd isRAMAddress call fst]. rewrite !omap_app.
  destruct (HostIsRAMAddress host _); [|done].
  fold (queried (TimedUpdate_texts host (m_search_type_size st)
    (wrap32 (address (m_results st !!! Z.to_nat i) + ram_base (m_ram st)))).2).
  by rewrite TimedUpdate_texts_queried.
Qed.

Lemma mjoin_singletons {X Y} (g : X → Y) (l : list X) :
  mjoin ((λ x, [g x]) <$> l) = g <$> l.
Proof. induction l as [|x l IH]; [done|]. cbn. by f_equal. Qed.

Lemma fmap_lookup_total_seqZ {Y} (f : Result → Y) (l : list Result) (D : Z) :
  0 ≤ D ≤ Z.of_nat (length l) →
  (λ i, f (l !!! Z.to_nat i)) <$> seqZ 0 D = f <$> take (Z.to_nat D) l.
Proof.
  intros HD. apply list_eq. intros i.
  rewrite !list_lookup_fmap.
  destruct (decide (Z.of_nat i < D)) as [Hi|Hi].
  - rewrite lookup_seqZ_lt by lia. rewrite lookup_take_lt by lia.
    cbn. rewrite Z.add_0_l, Nat2Z.id.
    destruct (lookup_lt_is_Some_2 l i) as [x Hx]; [lia|].
    by rewrite (list_lookup_total_correct _ _ _ Hx), Hx.
  - rewrite lookup_seqZ_ge by lia. by rewrite lookup_take_ge by lia.
Qed.

(** X12. [Update] asks [PowerPC::HostIsRAMAddress] exactly once per
    displayed candidate, in list order, for the first [MAX_RESULTS]
    candidates and no other: the addresses asked about are the
    absolute addresses [offset + base] of the first 4096 candidates. *)
Theorem Update_asks_about_the_first_candidates host st :
  queried (Update host st).2
  = absolute st <$> take (Z.to_nat MAX_RESULTS) (m_results st).
Proof.
  unfold Update. cbn [set_m_updating set_m_match_table m_results].
  case_bool_decide as Hres; [by rewrite Hres|].
  destruct (m_refresh_enabled _);
    case_bool_decide as Hmany; simpl in Hmany; rewrite bind_snd; cbn [ret snd];
    rewrite app_nil_r;
    (erewrite for_each_queried; [|intros; apply Update_row_queried]);
    rewrite mjoin_singletons;
    match goal with
    | |- (λ i, absolute ?s (m_results ?s !!! _)) <$> _ = _ =>
        change (absolute s) with (absolute st)
    end;
    repeat match goal with
    | |- context [m_results ?s] =>
        lazymatch s with
        | st => fail
        | _ => change (m_results s) with (m_results st)
        end
    end;
    unfold MAX_RESULTS in *;
    rewrite (fmap_lookup_total_seqZ (absolute st)) by lia; try done;
    rewrite Nat2Z.id; by rewrite !take_ge by lia.
Qed.

Lemma TimedUpdate_rows_rowCount host st (l : list Z) t :
  rowCount (for_each (TimedUpdate_row host st) t l).1 = rowCount t.
Proof.
  apply (for_each_invariant (TimedUpdate_row host st)
           (λ t', rowCount t' = rowCount t)); [done|].
  intros t' i _ <-. unfold TimedUpdate_row. rewrite !bind_fst. cbn [ret fst].
  by rewrite !setItem_rowCount.
Qed.

(** X13. When no row lies at the bottom edge of the visible area
    ([rowAt] returns -1), [TimedUpdate] takes [rowCount()] for the
    last row and its loop condition is [i <= last_row]: the body runs
    for the indices [first .. rowCount] inclusive, one more than there
    are rows from [first] on.  With two candidates and two rows it
    asks about three addresses; the last index is no row of the table
    and, when the list was not capped, no element of [m_results]. *)
Theorem TimedUpdate_runs_through_index_rowCount host first st :
  m_updating st = false →
  m_results st ≠ [] →
  let rows := Z.min (Z.of_nat (length (m_results st))) MAX_RESULTS in
  let after := TimedUpdate host (λ _, first) (λ _, -1) st in
  rowCount (m_match_table after.1) = rows
  ∧ queried after.2
    = (λ i, absolute st (m_results st !!! Z.to_nat i))
        <$> seqZ first (rows - first + 1)
  ∧ length (queried after.2) = Z.to_nat (rows - first + 1).
Proof.
  intros Hupd Hres rows after.
  assert (Hq : rowCount (m_match_table after.1) = rows
    ∧ queried after.2
      = (λ i, absolute st (m_results st !!! Z.to_nat i))
          <$> seqZ first (rows - first + 1)).
  { subst after rows. unfold TimedUpdate. rewrite Hupd.
    rewrite bool_decide_false by done. unfold MAX_RESULTS.
    case_bool_decide as Hmany; rewrite bind_fst, bind_snd; cbn [ret fst snd];
      rewrite app_nil_r;
      (erewrite for_each_queried; [|intros; apply TimedUpdate_row_queried]);
      rewrite mjoin_singletons;
      cbn [m_match_table set_m_match_table];
      rewrite TimedUpdate_rows_rowCount;
      cbn [setRowCount rowCount Z.eqb];
      first [rewrite Z.min_r by lia | rewrite Z.min_l by lia]; done. }
  destruct Hq as [Hrows Hq]. split_and!; [done..|].
  by rewrite Hq, length_fmap, length_seqZ.
Qed.

Lemma TimedUpdate_runs_through_index_rowCount_witness :
  length (queried (TimedUpdate (machine scenario_B_memory)
                     (λ _, 0) (λ _, -1) scenario_B).2) = 3%nat
  ∧ length (m_results scenario_B) = 2%nat.
Proof.
  split; [|reflexivity].
  exact (proj2 (proj2 (TimedUpdate_runs_through_index_rowCount
    (machine scenario_B_memory) 0 scenario_B eq_refl
    ltac:(vm_compute; discriminate)))).
Defined.

(** ** Reset *)

Lemma Reset_result host st :
  Reset host st
  = ({| m_ram := m_ram st; m_results := [];
        m_search_type_size := m_search_type_size st;
        m_scan_is_initialized := m_scan_is_initialized st;
        m_updating := false; m_result_label := "";
        m_match_table := {| rowCount := 0; cells := ∅ |};
        m_timer_active := false;
        m_refresh_enabled := m_refresh_enabled st;
        m_match_length := m_match_length st;
        m_match_operation := m_match_operation st;
        m_match_value := m_match_value st;
        m_match_decimal := m_match_decimal st;
        m_match_hexadecimal := m_match_hexadecimal st;
        m_ram_checked := m_ram_checked st;
        m_range_start := m_range_start st;
        m_range_end := m_range_end st;
        m_match_next_enabled := false;
        m_setup_enabled := true |}, []).
Proof.
  destruct st as [ram results size init upd label table timer refresh
    len op value dec hex checked rs re next setup].
  unfold Reset, Update.
  cbv [set_m_updating set_m_match_table set_m_timer_active set_m_result_label
       set_m_setup_enabled set_m_match_next_enabled set_m_results
       setRowCount clearContents rowCount cells
       m_ram m_results m_search_type_size
       m_scan_is_initialized m_updating
       m_result_label m_match_table
       m_timer_active m_refresh_enabled
       m_match_length m_match_operation
       m_match_value m_match_decimal
       m_match_hexadecimal m_ram_checked
       m_range_start m_range_end
       m_match_next_enabled m_setup_enabled].
  rewrite bool_decide_true by done. cbv beta iota zeta.
  by rewrite map_filter_empty.
Qed.

(** X14. [Reset] leaves an empty search and calls nothing in the
    emulator: no candidates, a table of zero rows without items, an
    empty label, the timer stopped, Next Search disabled and the
    set-up widgets enabled.  The resolved region and the
    scan-initialised flag stay as they were.  A second [Reset], and a
    [TimedUpdate], change nothing more. *)
Theorem Reset_leaves_an_empty_search host st :
  let st' := (Reset host st).1 in
  (Reset host st).2 = []
  ∧ m_results st' = []
  ∧ m_match_table st' = {| rowCount := 0; cells := ∅ |}
  ∧ m_result_label st' = ""
  ∧ m_timer_active st' = false
  ∧ m_updating st' = false
  ∧ m_match_next_enabled st' = false
  ∧ m_setup_enabled st' = true
  ∧ m_ram st' = m_ram st
  ∧ m_scan_is_initialized st' = m_scan_is_initialized st
  ∧ (∀ host', Reset host' st' = (st', []))
  ∧ (∀ host' top bottom, TimedUpdate host' top bottom st' = (st', [])).
Proof.
  cbv zeta. rewrite Reset_result. cbn [fst snd].
  by split_and!.
Qed.

(** ** Next Search refused *)

(** X15. A Next Search that is refused changes the label and nothing
    else, and calls nothing in the emulator: without a resolved region
    the label becomes "Memory Not Ready", and with one and a text that
    does not parse it becomes "Incorrect search value."; candidates,
    table and timer stay. *)
Theorem NextSearch_refused_changes_only_the_label host st :
  ram_ptr (m_ram st) = None
  ∨ (m_match_value st ≠ "" ∧ value_parses host st = false) →
  ∃ message,
    NextSearch host st = (set_m_result_label message st, [])
    ∧ message
      = match ram_ptr (m_ram st) with
        | Some _ => "Incorrect search value."
        | None => "Memory Not Ready"
        end.
Proof.
  intros Hcase. unfold NextSearch.
  destruct (ram_ptr (m_ram st)) as [k|] eqn:Hptr; [|by eexists].
  destruct Hcase as [|[Hvalue Hparse]]; [done|].
  eexists. split; [|done].
  rewrite bool_decide_false by done. unfold value_parses in Hparse.
  destruct (m_match_length st =? 3).
  - destruct (toFloat host (m_match_value st)) as [v good].
    cbn in Hparse. by rewrite Hparse.
  - destruct (toULong _ _) as [v good]. cbn in Hparse. by rewrite Hparse.
Qed.

Lemma NextSearch_refused_changes_only_the_label_witness :
  ∃ message,
    NextSearch (machine scenario_B_memory) (set_m_match_value "5g" scenario_B)
    = (set_m_result_label message (set_m_match_value "5g" scenario_B), [])
    ∧ message = "Incorrect search value.".
Proof.
  apply (NextSearch_refused_changes_only_the_label
           (machine scenario_B_memory) (set_m_match_value "5g" scenario_B)).
  right. split; [discriminate|reflexivity].
Defined.

(** ** Hexadecimal texts read back *)

Lemma parse_hex_digits_from (d : Hexadecimal.uint) : ∀ p,
  parse_digits 16 (HexadecimalString.NilEmpty.string_of_uint d) (Z.pos p)
  = Some (Z.pos (Pos.of_hex_uint_acc d p)).
Proof.
  induction d; intros p;
    cbn [HexadecimalString.NilEmpty.string_of_uint parse_digits
         Pos.of_hex_uint_acc]; [done|..];
    match goal with
    | |- context [digit_of ?c] =>
        let v := eval vm_compute in (digit_of c) in
        change (digit_of c) with v
    end;
    cbv beta iota;
    match goal with
    | |- context [?k <? 16] => change (k <? 16) with true
    end;
    cbv iota; rewrite <- IHd; f_equal; lia.
Qed.

Lemma parse_hex_digits (d : Hexadecimal.uint) :
  parse_digits 16 (HexadecimalString.NilEmpty.string_of_uint d) 0
  = Some (Z.of_N (N.of_hex_uint d)).
Proof.
  unfold N.of_hex_uint.
  induction d;
    cbn [HexadecimalString.NilEmpty.string_of_uint parse_digits
         Pos.of_hex_uint]; [done|..];
    match goal with
    | |- context [digit_of ?c] =>
        let v := eval vm_compute in (digit_of c) in
        change (digit_of c) with v
    end;
    cbv beta iota;
    match goal with
    | |- context [?k <? 16] => change (k <? 16) with true
    end;
    cbv iota; [exact IHd|..];
    match goal with
    | |- parse_digits 16 _ (16 * 0 + ?k) = _ =>
        change (16 * 0 + k) with k
    end;
    by rewrite parse_hex_digits_from.
Qed.

Lemma parse_padded (k : nat) (s : string) :
  parse_digits 16 (pad k "0" s) 0 = parse_digits 16 s 0.
Proof. induction k as [|k IH]; [done|]. exact IH. Qed.

Lemma hex_text_nonempty (d : Hexadecimal.uint) :
  HexadecimalString.NilZero.string_of_uint d ≠ "".
Proof. by destruct d. Qed.

Lemma pad_nonempty (k : nat) fill (s : string) : s ≠ "" → pad k fill s ≠ "".
Proof. by destruct k. Qed.

Lemma parse_arg16 v (w : nat) :
  0 ≤ v →
  arg16 v w "0" ≠ "" ∧ parse_digits 16 (arg16 v w "0") 0 = Some v.
Proof.
  intros Hv. unfold arg16. split.
  - apply pad_nonempty, hex_text_nonempty.
  - rewrite parse_padded.
    assert (Hd : parse_digits 16
      (HexadecimalString.NilZero.string_of_uint (N.to_hex_uint (Z.to_N v))) 0
      = Some (Z.of_N (N.of_hex_uint (N.to_hex_uint (Z.to_N v))))).
    { destruct (N.to_hex_uint (Z.to_N v)) eqn:Hd; [done|..];
        apply parse_hex_digits. }
    rewrite Hd, HexadecimalN.Unsigned.of_to. f_equal. lia.
Qed.

(** A value of at most 32 bits, written in hexadecimal and filled with
    zeros, is read back by [toUInt] in base 16. *)
Lemma toUInt_arg16 v (w : nat) :
  0 ≤ v < 2 ^ 32 → toUInt (arg16 v w "0") 16 = (v, true).
Proof.
  intros Hv. destruct (parse_arg16 v w) as [Hne Hparse]; [lia|].
  unfold toUInt, to_unsigned. rewrite Hparse.
  destruct (arg16 v w "0"); [done|].
  by rewrite (proj2 (Z.leb_le _ _)) by lia.
Qed.

Lemma int_text_arg16 v (w : nat) :
  0 ≤ v < 2 ^ 32 → int_text (arg16 v w "0") = number v.
Proof. intros Hv. unfold int_text. by rewrite toUInt_arg16. Qed.

(** ** The rows of the table *)

Lemma Update_value_text_read host n a :
  (Update_value_text host n a).1 = arg16 (read_at host n a) (digits_of n) "0".
Proof.
  unfold Update_value_text.
  by destruct n as [|[[p|p|]|[[p|p|]|[p|p|]|]|]|p].
Qed.

Lemma setItem_other row column item t (k : Z * Z) :
  k ≠ (row, column) → cells (setItem row column item t) !! k = cells t !! k.
Proof.
  intros Hk. unfold setItem. case_bool_decide; [|done].
  cbn [cells]. by rewrite lookup_insert_ne.
Qed.

Lemma setItem_own row column item t :
  0 ≤ row < rowCount t → 0 ≤ column < 4 →
  cells (setItem row column item t) !! (row, column) = Some item.
Proof.
  intros Hrow Hcolumn. unfold setItem. rewrite bool_decide_true by done.
  cbn [cells]. by rewrite lookup_insert_eq.
Qed.

(** The four texts [Update] puts in row [i]. *)
Lemma Update_row_own host st t i :
  0 ≤ i < rowCount t → row_shown host st i (Update_row host st t i).1.
Proof.
  intros Hi. unfold row_shown, Update_row, absolute.
  set (a := wrap32 (address (m_results st !!! Z.to_nat i) + ram_base (m_ram st))).
  rewrite !bind_fst. cbn [ret fst isRAMAddress read_F32 call].
  destruct (HostIsRAMAddress host a);
    rewrite ?Update_value_text_read; cbn [ret fst];
    (split_and!;
      [ rewrite !setItem_other by congruence; by apply setItem_own
      | rewrite !setItem_other by congruence;
        apply setItem_own; [by rewrite ?setItem_rowCount|lia]
      | rewrite !setItem_other by congruence;
        apply setItem_own; [by rewrite ?setItem_rowCount|lia]
      | apply setItem_own; [by rewrite ?setItem_rowCount|lia] ]).
Qed.

Lemma Update_row_other host st t i (k : Z * Z) :
  k.1 ≠ i → cells (Update_row host st t i).1 !! k = cells t !! k.
Proof.
  intros Hk. unfold Update_row. rewrite !bind_fst. cbn [ret fst].
  rewrite !setItem_other; [done|destruct k; cbn in Hk; congruence..].
Qed.

Lemma Update_row_rowCount host st t i :
  rowCount (Update_row host st t i).1 = rowCount t.
Proof.
  unfold Update_row. rewrite !bind_fst. cbn [ret fst].
  by rewrite !setItem_rowCount.
Qed.

Lemma Update_rows_rowCount host st (l : list Z) : ∀ t,
  rowCount (for_each (Update_row host st) t l).1 = rowCount t.
Proof.
  induction l as [|x l IH]; intros t; [done|].
  cbn [for_each]. rewrite bind_fst, IH. apply Update_row_rowCount.
Qed.

Lemma Update_rows_other host st (l : list Z) (k : Z * Z) : ∀ t,
  k.1 ∉ l → cells (for_each (Update_row host st) t l).1 !! k = cells t !! k.
Proof.
  induction l as [|x l IH]; intros t Hk; [done|].
  cbn [for_each]. rewrite bind_fst.
  rewrite IH by (intros ?; apply Hk; by right).
  apply Update_row_other. intros Hx. apply Hk. rewrite Hx. by left.
Qed.

(** A row the loop visits holds, at the end, what its iteration
    wrote: the later iterations write other rows. *)
Lemma Update_rows_own host st (l : list Z) i : ∀ t,
  i ∈ l → 0 ≤ i < rowCount t →
  row_shown host st i (for_each (Update_row host st) t l).1.
Proof.
  induction l as [|x l IH]; intros t Hi Hrow; [by apply elem_of_nil in Hi|].
  cbn [for_each]. rewrite bind_fst.
  destruct (decide (i ∈ l)) as [Hl|Hl].
  - apply IH; [done|]. by rewrite Update_row_rowCount.
  - apply elem_of_cons in Hi as [->|Hi]; [|done].
    unfold row_shown. rewrite !Update_rows_other by done.
    by apply Update_row_own.
Qed.

Lemma Update_rows_shown host st i :
  0 ≤ i < Z.min (Z.of_nat (length (m_results st))) MAX_RESULTS →
  row_shown host st i (m_match_table (Update host st).1).
Proof.
  intros Hi. unfold Update. cbn [set_m_updating set_m_match_table m_results].
  rewrite bool_decide_false by (intros Hnil; rewrite Hnil in Hi; cbn in Hi; lia).
  unfold MAX_RESULTS in *.
  destruct (m_refresh_enabled _);
    case_bool_decide as Hmany; simpl in Hmany; rewrite bind_fst; cbn [ret fst];
    match goal with
    | |- row_shown _ _ _ (m_match_table (set_m_updating false
           (set_m_match_table (for_each (Update_row _ ?s) ?t ?l).1 _))) =>
        change (row_shown host s i (for_each (Update_row host s) t l).1)
    end;
    (apply Update_rows_own; [apply elem_of_seqZ|]);
    cbn [m_match_table set_m_match_table setRowCount rowCount];
    repeat match goal with
    | |- context [m_results ?s] =>
        lazymatch s with
        | st => fail
        | _ => change (m_results s) with (m_results st)
        end
    end;
    lia.
Qed.

(** X16. After [Update], row [i] of the table shows candidate [i],
    for every [i] below the number of candidates and below
    [MAX_RESULTS]: the address [offset + base] in eight hexadecimal
    digits; the value read in 2, 4 or 8 hexadecimal digits, or "---"
    at an address that is not readable; the same value in decimal (the
    hexadecimal text parsed back by [toUInt]), or a dash; and the
    float.  Every item carries the row index as its [INDEX_ROLE]
    data, and later iterations do not overwrite the row. *)
Theorem Update_shows_each_candidate_in_its_row host st i :
  0 ≤ i < Z.min (Z.of_nat (length (m_results st))) MAX_RESULTS →
  let a := absolute st (m_results st !!! Z.to_nat i) in
  let v := read_at host (m_search_type_size st) a in
  (HostIsRAMAddress host a = true → 0 ≤ v < 2 ^ 32) →
  let table := m_match_table (Update host st).1 in
  cells table !! (i, 0) = Some (cell i (arg16 a 8 "0"))
  ∧ cells table !! (i, 1)
    = Some (cell i (if HostIsRAMAddress host a
                    then arg16 v (digits_of (m_search_type_size st)) "0"
                    else "---"))
  ∧ cells table !! (i, 2)
    = Some (cell i (if HostIsRAMAddress host a then number v else "-"))
  ∧ cells table !! (i, 3)
    = Some (cell i (number_float host (HostRead_F32 host a))).
Proof.
  intros Hi a v Hv table.
  destruct (Update_rows_shown host st i Hi) as (H0 & H1 & H2 & H3).
  fold a in H0, H1, H2, H3. fold v in H1, H2. fold table in H0, H1, H2, H3.
  split_and!; [done..| |done].
  rewrite H2. destruct (HostIsRAMAddress host a); [|done].
  by rewrite int_text_arg16 by auto.
Qed.

Lemma Update_shows_each_candidate_in_its_row_witness :
  cells (m_match_table (Update (machine scenario_B_memory) scenario_B).1)
    !! (1, 2) = Some (cell 1 "9").
Proof.
  exact (proj1 (proj2 (proj2 (Update_shows_each_candidate_in_its_row
    (machine scenario_B_memory) scenario_B 1
    ltac:(vm_compute; split; congruence)
    ltac:(intros _; vm_compute; split; congruence))))).
Defined.

(** ** The range a region toggle writes *)

Lemma hex_bound_from (d : Hexadecimal.uint) : ∀ p,
  Z.pos (Pos.of_hex_uint_acc d p)
  < (Z.pos p + 1)
    * 16 ^ Z.of_nat (String.length (HexadecimalString.NilEmpty.string_of_uint d)).
Proof.
  induction d; intros p;
    cbn [HexadecimalString.NilEmpty.string_of_uint String.length
         Pos.of_hex_uint_acc]; [cbn; lia|..];
    rewrite Nat2Z.inj_succ, Z.pow_succ_r by lia;
    match goal with
    | |- Z.pos (Pos.of_hex_uint_acc _ ?q) < _ * (16 * ?X) =>
        specialize (IHd q); assert (0 < X) by (apply Z.pow_pos_nonneg; lia)
    end; nia.
Qed.

Lemma hex_bound (d : Hexadecimal.uint) :
  Z.of_N (N.of_hex_uint d)
  < 16 ^ Z.of_nat (String.length (HexadecimalString.NilEmpty.string_of_uint d)).
Proof.
  unfold N.of_hex_uint.
  induction d;
    cbn [HexadecimalString.NilEmpty.string_of_uint String.length
         Pos.of_hex_uint]; [cbn; lia|..];
    rewrite Nat2Z.inj_succ, Z.pow_succ_r by lia;
    match goal with
    | |- _ < 16 * ?X => assert (0 < X) by (apply Z.pow_pos_nonneg; lia)
    end; [lia|..];
    match goal with
    | |- Z.of_N (N.pos (Pos.of_hex_uint_acc _ ?q)) < _ =>
        pose proof (hex_bound_from d q)
    end; cbn [Z.of_N]; nia.
Qed.

(** From [2^28] on a value has eight hexadecimal digits, so that
    nothing is filled in. *)
Lemma arg16_eight_digits v fill :
  2 ^ 28 ≤ v →
  arg16 v 8 fill
  = HexadecimalString.NilZero.string_of_uint (N.to_hex_uint (Z.to_N v)).
Proof.
  intros Hv. unfold arg16.
  set (d := N.to_hex_uint (Z.to_N v)).
  assert (Hlen : (8 ≤ String.length
                        (HexadecimalString.NilZero.string_of_uint d))%nat).
  { pose proof (hex_bound d) as Hb.
    unfold d in Hb at 1. rewrite HexadecimalN.Unsigned.of_to in Hb.
    rewrite Z2N.id in Hb by lia.
    assert (HexadecimalString.NilZero.string_of_uint d
            = HexadecimalString.NilEmpty.string_of_uint d) as ->.
    { destruct d eqn:Hd; [|done..]. cbn in Hb. lia. }
    destruct (le_lt_dec 8 (String.length
                (HexadecimalString.NilEmpty.string_of_uint d))) as [|Hshort];
      [done|].
    assert (16 ^ Z.of_nat (String.length
              (HexadecimalString.NilEmpty.string_of_uint d)) ≤ 16 ^ 7)
      by (apply Z.pow_le_mono_r; lia).
    lia. }
  by replace (8 - String.length
                (HexadecimalString.NilZero.string_of_uint d))%nat with 0%nat
    by lia.
Qed.

Lemma toUInt_arg16_eight_digits v fill :
  2 ^ 28 ≤ v < 2 ^ 32 → toUInt (arg16 v 8 fill) 16 = (v, true).
Proof.
  intros Hv. rewrite (arg16_eight_digits v fill) by lia.
  rewrite <- (arg16_eight_digits v "0") by lia.
  apply toUInt_arg16. lia.
Qed.

(** X17. A toggle of a region radio ([MemoryPtr(true)]) on an
    allocated region writes range texts that select the whole region:
    the two texts parse back to [base] and [base + size], and
    [search_range] gives the window [0, size) for them, when the size
    is a multiple of 16 and [base + size] fits 32 bits. *)
Theorem region_toggle_selects_the_whole_region host st mem :
  region_buffer host (m_ram_checked st) = Some mem →
  0 ≤ region_size host (m_ram_checked st) →
  base_of (m_ram_checked st) + region_size host (m_ram_checked st) < 2 ^ 32 →
  region_size host (m_ram_checked st) mod 16 = 0 →
  let st' := MemoryPtr host true st in
  m_ram st' = region_of host st
  ∧ toUInt (m_range_start st') 16 = (base_of (m_ram_checked st), true)
  ∧ toUInt (m_range_end st') 16
    = (base_of (m_ram_checked st) + region_size host (m_ram_checked st), true)
  ∧ search_range (m_ram st') (m_range_start st') (m_range_end st')
    = (0, region_size host (m_ram_checked st)).
Proof.
  intros Hbuf Hsize Hfit Hmod st'.
  assert (Hbase : 2 ^ 28 ≤ base_of (m_ram_checked st))
    by (destruct (m_ram_checked st); cbn; lia).
  assert (Hst' : m_ram st' = region_of host st
    ∧ m_range_start st' = arg16 (base_of (m_ram_checked st)) 8 " "
    ∧ m_range_end st'
      = arg16 (base_of (m_ram_checked st)
               + region_size host (m_ram_checked st)) 8 " ").
  { subst st'. unfold MemoryPtr, region_of. rewrite Hbuf.
    by destruct (m_ram_checked st). }
  destruct Hst' as (Hram & Hstart & Hend).
  assert (Hs : toUInt (m_range_start st') 16
               = (base_of (m_ram_checked st), true))
    by (rewrite Hstart; apply toUInt_arg16_eight_digits; lia).
  assert (He : toUInt (m_range_end st') 16
               = (base_of (m_ram_checked st)
                  + region_size host (m_ram_checked st), true))
    by (rewrite Hend; apply toUInt_arg16_eight_digits; lia).
  split_and!; [done..|].
  unfold search_range. rewrite Hs, He, Hram. cbn [region_of ram_base ram_size negb].
  rewrite Z.sub_diag.
  replace (base_of (m_ram_checked st) + region_size host (m_ram_checked st)
           - base_of (m_ram_checked st))
    with (region_size host (m_ram_checked st)) by lia.
  change (Z.land (wrap32 0) 0xfffffff0) with 0.
  rewrite !(wrap32_small (region_size host _)) by lia.
  rewrite land_fffffff0 by lia.
  replace (16 * (region_size host (m_ram_checked st) / 16))
    with (region_size host (m_ram_checked st))
    by (Z.div_mod_to_equations; lia).
  change (0 >? 0) with false. cbn [andb].
  by rewrite (proj2 (Z.ltb_ge _ _)) by lia.
Qed.

Lemma region_toggle_selects_the_whole_region_witness :
  search_range
    (m_ram (MemoryPtr (machine (replicate 32 7)) true fresh))
    (m_range_start (MemoryPtr (machine (replicate 32 7)) true fresh))
    (m_range_end (MemoryPtr (machine (replicate 32 7)) true fresh))
  = (0, 32).
Proof.
  exact (proj2 (proj2 (proj2 (region_toggle_selects_the_whole_region
    (machine (replicate 32 7)) fresh (mem_of_list (replicate 32 7))
    eq_refl ltac:(vm_compute; congruence) ltac:(vm_compute; congruence)
    eq_refl)))).
Defined.
